(** * Field overrides for custom courses (lms/djangoapps/ccx/overrides.py)

    A shallow embedding of the override provider, of the per-block cache
    and of the mutation API, over an explicit model of the two tables the
    module talks to and of the block object it decorates with a cache. *)

From Stdlib Require Import ZArith List String Lia.
From Stdlib Require DecimalString DecimalZ DecimalPos.
From stdpp Require Import base option list strings gmap.

Local Open Scope Z_scope.
Local Open Scope string_scope.
Local Open Scope list_scope.

(** ** Opaque keys

    Course keys and usage keys, each in base form or in the form that
    carries the id of a custom course (opaque_keys, ccx_keys.locator). *)

Inductive CourseKey : Type :=
  | CourseLocator (course : string)
  | CCXLocator (course : string) (ccx : Z).

Inductive UsageKey : Type :=
  | BlockUsageLocator (course : string) (block_id : string)
  | CCXBlockUsageLocator (course : string) (ccx : Z) (block_id : string).

#[global] Instance CourseKey_eq_dec : EqDecision CourseKey.
Proof. solve_decision. Defined.

#[global] Instance UsageKey_eq_dec : EqDecision UsageKey.
Proof. solve_decision. Defined.

(** [usage_key.course_key] *)
Definition course_key (u : UsageKey) : CourseKey :=
  match u with
  | BlockUsageLocator c _ => CourseLocator c
  | CCXBlockUsageLocator c n _ => CCXLocator c n
  end.

(** [isinstance(location, CCXBlockUsageLocator)] *)
Definition is_CCXBlockUsageLocator (u : UsageKey) : bool :=
  match u with
  | BlockUsageLocator _ _ => false
  | CCXBlockUsageLocator _ _ _ => true
  end.

(** [CCXBlockUsageLocator.to_block_locator()]: the context qualifier is
    dropped. *)
Definition to_block_locator (u : UsageKey) : UsageKey :=
  match u with
  | BlockUsageLocator c b => BlockUsageLocator c b
  | CCXBlockUsageLocator c _ b => BlockUsageLocator c b
  end.

(** A location is in base form when it carries no context qualifier. *)
Definition base_form (u : UsageKey) : Prop := is_CCXBlockUsageLocator u = false.

(** ** Exceptions and results *)

Inductive Exc : Type :=
  | KeyError
  | AttributeError
  | ValueError
  | InvalidKeyError
  | DoesNotExist
  | MultipleObjectsReturned
  | IntegrityError
  | OtherError (class : string).

#[global] Instance Exc_eq_dec : EqDecision Exc.
Proof. solve_decision. Defined.

Inductive Result (A : Type) : Type :=
  | Return (a : A)
  | Raise (e : Exc).

Arguments Return {A} a.
Arguments Raise {A} e.

(** ** The tables *)

(** Modelled from the spec: the [CustomCourseForEdX] model of models.py,
    a Context record identified by an integer id that belongs to one
    base course. *)
Record CustomCourseForEdX : Type := {
  ccx_id : Z;
  ccx_course : string
}.

(** Modelled from the spec: the [CcxFieldOverride] model of models.py, a
    tuple (context, location, field-name, serialized value); the context
    is referenced by its id. *)
Record CcxFieldOverride : Type := {
  o_ccx : Z;
  o_location : UsageKey;
  o_field : string;
  o_value : string
}.

(** The rows of one block in one context, as [objects.filter(ccx=...,
    location=...)] selects them. *)
Definition at_location (c : Z) (loc : UsageKey) (r : CcxFieldOverride) : Prop :=
  o_ccx r = c ∧ o_location r = loc.

(** The rows of one key, as [objects.get(ccx=..., location=...,
    field=...)] selects them. *)
Definition has_key (c : Z) (loc : UsageKey) (f : string) (r : CcxFieldOverride) : Prop :=
  o_ccx r = c ∧ o_location r = loc ∧ o_field r = f.

#[global] Instance at_location_dec c loc r : Decision (at_location c loc r).
Proof. unfold at_location. apply _. Defined.

#[global] Instance has_key_dec c loc f r : Decision (has_key c loc f r).
Proof. unfold has_key. apply _. Defined.

(** Modelled from the spec: the uniqueness constraint of models.py on
    (context, location, field-name): at most one row per key. *)
Definition unique_together (rows : list CcxFieldOverride) : Prop :=
  ∀ c loc f, (length (filter (has_key c loc f) rows) ≤ 1)%nat.

(** The key of a row. *)
Definition row_key (r : CcxFieldOverride) : Z * UsageKey * string :=
  (o_ccx r, o_location r, o_field r).

(** What the module does to the outside, in the order it does it. *)
Inductive Event : Type :=
  | LogError
  | QueryContext (pk : Z)
  | QueryFilter (c : Z) (loc : UsageKey)
  | QueryGet (c : Z) (loc : UsageKey) (f : string)
  | Insert (r : CcxFieldOverride)
  | Update (i : nat) (r : CcxFieldOverride)
  | Delete (i : nat).

(** [is_store_query e]: [e] reads or writes the override table. *)
Definition is_store_query (e : Event) : bool :=
  match e with
  | LogError | QueryContext _ => false
  | _ => true
  end.

Section Overrides.

(** ** The codecs

    Field values and their JSON-serialisable form are those of the fields
    a block declares; [dumps] and [loads] are [json.dumps] and
    [json.loads] ([None]: the text is not JSON), [from_string] is
    [CourseKey.from_string] ([None]: the text is not a course key). *)

Context {Value Json : Type}.
Variable dumps : Json → string.
Variable loads : string → option Json.
Variable from_string : string → option CourseKey.

(** A field of a block, with its own encode and decode rules
    ([Raise e]: [from_json] rejects the value and raises [e], an
    exception of the field's own choosing). *)
Record Field : Type := {
  to_json : Value → Json;
  from_json : Json → Result Value
}.

(** ** Blocks *)

(** What [getattr(block, 'id', None)] is: a course key, a usage key, or
    anything else (no such attribute, [None], another object). *)
Inductive Identifier : Type :=
  | IdCourseKey (k : CourseKey)
  | IdUsageKey (u : UsageKey)
  | IdOther.

(** The object the provider is handed: [location] and [_ccx_overrides]
    are attributes it may lack; [fields] maps the names of its fields to
    them. *)
Record Block : Type := {
  id_attr : Identifier;
  location : option UsageKey;
  fields : gmap string Field;
  _ccx_overrides : option (gmap Z (gmap string Value))
}.

(** [block._ccx_overrides = cache] *)
Definition with_ccx_overrides (cache : option (gmap Z (gmap string Value)))
    (b : Block) : Block :=
  {| id_attr := id_attr b; location := location b; fields := fields b;
     _ccx_overrides := cache |}.

(** ** The state the module runs in

    The block object, the override table as the connection sees it
    ([overrides]) and as last committed ([committed]), whether the
    connection is inside a managed transaction block, the table of
    custom courses and the events so far. *)
Record State : Type := {
  block : Block;
  overrides : list CcxFieldOverride;
  committed : list CcxFieldOverride;
  managed : bool;
  contexts : list CustomCourseForEdX;
  trace : list Event
}.

Definition with_block (b : Block) (s : State) : State :=
  {| block := b; overrides := overrides s; committed := committed s;
     managed := managed s; contexts := contexts s; trace := trace s |}.

Definition with_overrides (rows : list CcxFieldOverride) (s : State) : State :=
  {| block := block s; overrides := rows; committed := committed s;
     managed := managed s; contexts := contexts s; trace := trace s |}.

Definition with_committed (rows : list CcxFieldOverride) (s : State) : State :=
  {| block := block s; overrides := overrides s; committed := rows;
     managed := managed s; contexts := contexts s; trace := trace s |}.

Definition with_managed (m : bool) (s : State) : State :=
  {| block := block s; overrides := overrides s; committed := committed s;
     managed := m; contexts := contexts s; trace := trace s |}.

Definition with_trace (t : list Event) (s : State) : State :=
  {| block := block s; overrides := overrides s; committed := committed s;
     managed := managed s; contexts := contexts s; trace := t |}.

(** ** Computations: state passing, with exceptions *)

Definition M (A : Type) : Type := State → Result A * State.

Definition ret {A} (a : A) : M A := λ s, (Return a, s).

Definition raise {A} (e : Exc) : M A := λ s, (Raise e, s).

Definition bind {A B} (m : M A) (k : A → M B) : M B :=
  λ s, match m s with
       | (Return a, s') => k a s'
       | (Raise e, s') => (Raise e, s')
       end.

(** [try: body except e: handler] *)
Definition try_except {A} (body : M A) (e : Exc) (handler : M A) : M A :=
  λ s, match body s with
       | (Return a, s') => (Return a, s')
       | (Raise e', s') => if decide (e' = e) then handler s' else (Raise e', s')
       end.

Definition emit (e : Event) : M unit :=
  λ s, (Return tt, with_trace (trace s ++ [e]) s).

Definition read {A} (f : State → A) : M A := λ s, (Return (f s), s).

Definition modify (f : State → State) : M unit := λ s, (Return tt, f s).

Definition or_raise {A} (e : Exc) (o : option A) : M A :=
  match o with
  | Some a => ret a
  | None => raise e
  end.

(** A call that returns or raises and leaves the state alone. *)
Definition of_result {A} (r : Result A) : M A := λ s, (r, s).

Declare Scope m_scope.
Delimit Scope m_scope with M.
Bind Scope m_scope with M.

Notation "x ← y ; z" := (bind y (λ x, z))
  (at level 20, y at level 100, z at level 200, only parsing) : m_scope.
Notation "y ;; z" := (bind y (λ _, z))
  (at level 100, z at level 200, only parsing, right associativity) : m_scope.

Local Open Scope m_scope.

(** ** The object-relational layer (django.db)

    A model instance is a row together with its position in the table,
    which stands for its primary key. Each call leaves its statement in
    the trace. *)

(** [transaction.commit_unless_managed()], which every write of the
    object-relational layer ends with: outside a managed block the write
    is committed at once. *)
Definition commit_unless_managed : M unit :=
  modify (λ s, if managed s then s else with_committed (overrides s) s).

(** [transaction.commit()] *)
Definition transaction_commit : M unit :=
  modify (λ s, with_committed (overrides s) s).

(** Leaving a [commit_on_success] block. Django documents the decorator
    so: if the function returns successfully, all work done within it is
    committed at that point; if the function raises an exception, the
    transaction is rolled back (and the exception goes on to the caller).
    Either way the connection is managed again as it was outside. The
    dirty flag of the connection is not modelled: when no write is
    pending the table and its committed view agree, and neither commit
    nor rollback changes anything. *)
Definition on_exit {A} (outer : bool) (rs : Result A * State) : Result A * State :=
  match rs with
  | (Return a, s') =>
      (Return a, with_managed outer (with_committed (overrides s') s'))
  | (Raise e, s') =>
      (Raise e, with_managed outer (with_overrides (committed s') s'))
  end.

(** [@transaction.commit_on_success]: the body runs in a managed block. *)
Definition commit_on_success {A} (body : M A) : M A :=
  λ s, on_exit (managed s) (body (with_managed true s)).

(** [CustomCourseForEdX.objects.get(pk=pk)] *)
Definition contexts_get (pk : Z) : M CustomCourseForEdX :=
  emit (QueryContext pk);;
  found ← read (λ s, filter (λ c, ccx_id c = pk) (contexts s));
  match found with
  | [] => raise DoesNotExist
  | [c] => ret c
  | _ => raise MultipleObjectsReturned
  end.

(** [CcxFieldOverride.objects.filter(ccx=ccx, location=location)] *)
Definition objects_filter (c : Z) (loc : UsageKey) : M (list CcxFieldOverride) :=
  emit (QueryFilter c loc);;
  read (λ s, filter (at_location c loc) (overrides s)).

(** [CcxFieldOverride.objects.get(ccx=ccx, location=location, field=name)] *)
Definition objects_get (c : Z) (loc : UsageKey) (f : string)
    : M (nat * CcxFieldOverride) :=
  emit (QueryGet c loc f);;
  rows ← read overrides;
  match list_find (has_key c loc f) rows with
  | None => raise DoesNotExist
  | Some ir =>
      if decide (length (filter (has_key c loc f) rows) = 1%nat)
      then ret ir
      else raise MultipleObjectsReturned
  end.

(** A write: the statement is run on the connection and, outside a
    managed block, committed at once. *)
Definition execute (e : Event) (rows : list CcxFieldOverride) : M unit :=
  emit e;;
  modify (with_overrides rows);;
  commit_unless_managed.

(** [CcxFieldOverride.objects.create(ccx=..., location=..., field=...,
    value=...)]; the insert is refused when a row has the key already. *)
Definition objects_create (r : CcxFieldOverride) : M (nat * CcxFieldOverride) :=
  rows ← read overrides;
  if decide (Exists (has_key (o_ccx r) (o_location r) (o_field r)) rows)
  then emit (Insert r);; raise IntegrityError
  else execute (Insert r) (rows ++ [r]);; ret (length rows, r).

(** [override.save()] on an instance that has a row: the row is updated. *)
Definition save (ir : nat * CcxFieldOverride) : M unit :=
  rows ← read overrides;
  execute (Update ir.1 ir.2) (<[ir.1 := ir.2]> rows).

(** [override.delete()] *)
Definition delete_row (ir : nat * CcxFieldOverride) : M unit :=
  rows ← read overrides;
  execute (Delete ir.1) (delete ir.1 rows).

(** [override.value = value] *)
Definition with_value (v : string) (ir : nat * CcxFieldOverride)
    : nat * CcxFieldOverride :=
  (ir.1, {| o_ccx := o_ccx ir.2; o_location := o_location ir.2;
            o_field := o_field ir.2; o_value := v |}).

(** ** The attributes of the block *)

(** [block.location] *)
Definition block_location : M UsageKey :=
  b ← read block; or_raise AttributeError (location b).

(** [block.fields[name]] *)
Definition block_field (name : string) : M Field :=
  b ← read block; or_raise KeyError (fields b !! name).

(** [block._ccx_overrides = cache] *)
Definition set_ccx_overrides (cache : option (gmap Z (gmap string Value))) : M unit :=
  modify (λ s, with_block (with_ccx_overrides cache (block s)) s).

(** [block._ccx_overrides[key] = entry] *)
Definition ccx_overrides_setitem (key : Z) (entry : gmap string Value) : M unit :=
  b ← read block;
  cache ← or_raise AttributeError (_ccx_overrides b);
  set_ccx_overrides (Some (<[key := entry]> cache)).

(** [del block._ccx_overrides[key]] *)
Definition ccx_overrides_delitem (key : Z) : M unit :=
  b ← read block;
  cache ← or_raise AttributeError (_ccx_overrides b);
  match cache !! key with
  | None => raise KeyError
  | Some _ => set_ccx_overrides (Some (delete key cache))
  end.

(** ** overrides.py *)

(** [if hasattr(block, '_ccx_overrides'): del block._ccx_overrides[ccx.id]],
    the last statement of both writers. *)
Definition drop_cached (ccx : CustomCourseForEdX) : M unit :=
  b ← read block;
  match _ccx_overrides b with
  | Some _ => ccx_overrides_delitem (ccx_id ccx)
  | None => ret tt
  end.

(** [get_current_ccx(course_id)]: the custom course that is active for
    this course; the id is a course key or the text of one. *)
Definition get_current_ccx (course_id : CourseKey + string)
    : M (option CustomCourseForEdX) :=
  course_key ← match course_id with
               | inl k => ret k
               | inr text => or_raise InvalidKeyError (from_string text)
               end;
  match course_key with
  | CCXLocator _ ccx_id =>
      ccx ← contexts_get ccx_id;
      ret (Some ccx)
  | CourseLocator _ => ret None
  end.

(** The body of the loop of [_get_overrides_for_ccx]. *)
Definition decode_override (acc : gmap string Value) (override : CcxFieldOverride)
    : M (gmap string Value) :=
  field ← block_field (o_field override);
  json ← or_raise ValueError (loads (o_value override));
  value ← of_result (from_json field json);
  ret (<[o_field override := value]> acc).

(** [for x in xs: acc = body(acc, x)] *)
Fixpoint for_each {A B} (body : B → A → M B) (xs : list A) (acc : B) : M B :=
  match xs with
  | [] => ret acc
  | x :: rest => acc' ← body acc x; for_each body rest acc'
  end.

(** [_get_overrides_for_ccx(ccx, block)]: field name to overridden value,
    for the overrides set on this block for this custom course. *)
Definition _get_overrides_for_ccx (ccx : CustomCourseForEdX)
    : M (gmap string Value) :=
  location ← block_location;
  let location := if is_CCXBlockUsageLocator location
                  then to_block_locator location else location in
  query ← objects_filter (ccx_id ccx) location;
  for_each decode_override query ∅.

(** [get_override_for_ccx(ccx, block, name, default)] *)
Definition get_override_for_ccx (ccx : CustomCourseForEdX) (name : string)
    (default : Value) : M Value :=
  b ← read block;
  match _ccx_overrides b with
  | None => set_ccx_overrides (Some ∅)
  | Some _ => ret tt
  end;;
  b ← read block;
  cache ← or_raise AttributeError (_ccx_overrides b);
  overrides ← match cache !! ccx_id ccx with
              | Some overrides => ret overrides
              | None =>
                  overrides ← _get_overrides_for_ccx ccx;
                  ccx_overrides_setitem (ccx_id ccx) overrides;;
                  ret overrides
              end;
  ret (match overrides !! name with
       | Some value => value
       | None => default
       end).

(** [CustomCoursesForEdxOverrideProvider.get(block, name, default)] *)
Definition get (name : string) (default : Value) : M Value :=
  b ← read block;
  course_id ← match id_attr b with
              | IdCourseKey k => ret (Some k)
              | IdUsageKey u => ret (Some (course_key u))
              | IdOther =>
                  match location b with
                  | Some loc => ret (Some (course_key loc))
                  | None => emit LogError;; ret None
                  end
              end;
  ccx ← match course_id with
        | Some k => get_current_ccx (inl k)
        | None => ret None
        end;
  match ccx with
  | Some ccx => get_override_for_ccx ccx name default
  | None => ret default
  end.

(** [override_field_for_ccx(ccx, block, name, value)] *)
Definition override_field_for_ccx (ccx : CustomCourseForEdX) (name : string)
    (value : Value) : M unit :=
  commit_on_success (
    field ← block_field name;
    let value := dumps (to_json field value) in
    override ← try_except
      (location ← block_location;
       objects_create {| o_ccx := ccx_id ccx; o_location := location;
                         o_field := name; o_value := value |})
      IntegrityError
      (transaction_commit;;
       location ← block_location;
       override ← objects_get (ccx_id ccx) location name;
       ret (with_value value override));
    save override;;
    drop_cached ccx).

(** [clear_override_for_ccx(ccx, block, name)] *)
Definition clear_override_for_ccx (ccx : CustomCourseForEdX) (name : string)
    : M unit :=
  try_except
    (location ← block_location;
     override ← objects_get (ccx_id ccx) location name;
     delete_row override;;
     drop_cached ccx)
    DoesNotExist
    (ret tt).

(** ** What the statements speak of *)

(** The course key the provider derives from the block, when it derives
    one: the dispatch of [get] on the identifier. *)
Definition resolved_course_key (b : Block) : option CourseKey :=
  match id_attr b with
  | IdCourseKey k => Some k
  | IdUsageKey u => Some (course_key u)
  | IdOther => course_key <$> location b
  end.

(** [is_CCXLocator k]: [isinstance(k, CCXLocator)] *)
Definition is_CCXLocator (k : CourseKey) : bool :=
  match k with
  | CourseLocator _ => false
  | CCXLocator _ _ => true
  end.

(** The block's cached entry for a context id. *)
Definition cached_entry (c : Z) (b : Block) : option (gmap string Value) :=
  match _ccx_overrides b with
  | Some cache => cache !! c
  | None => None
  end.

(** The events a computation adds to the trace. *)
Definition adds_events {A} (m : M A) (s : State) (evs : list Event) : Prop :=
  trace (m s).2 = trace s ++ evs.

(** The state after a write. *)
Definition written (e : Event) (rows : list CcxFieldOverride) (s : State) : State :=
  let s' := with_overrides rows (with_trace (trace s ++ [e]) s) in
  if managed s then s' else with_committed rows s'.

(** The row [override_field_for_ccx] writes. *)
Definition override_row (c : Z) (loc : UsageKey) (f v : string) : CcxFieldOverride :=
  {| o_ccx := c; o_location := loc; o_field := f; o_value := v |}.

(** The table after [override_field_for_ccx] has saved: a new last row,
    or the row that had the key with its value replaced. *)
Definition upserted (c : Z) (loc : UsageKey) (f v : string)
    (rows : list CcxFieldOverride) : list CcxFieldOverride :=
  match list_find (has_key c loc f) rows with
  | None => rows ++ [override_row c loc f v]
  | Some ir => <[ir.1 := (with_value v ir).2]> rows
  end.

(** The statements [override_field_for_ccx] has run when it has saved. *)
Definition upsert_events (c : Z) (loc : UsageKey) (f v : string)
    (rows : list CcxFieldOverride) : list Event :=
  match list_find (has_key c loc f) rows with
  | None =>
      [Insert (override_row c loc f v);
       Update (length rows) (override_row c loc f v)]
  | Some ir =>
      [Insert (override_row c loc f v); QueryGet c loc f;
       Update ir.1 (with_value v ir).2]
  end.

(** The location [_get_overrides_for_ccx] queries. *)
Definition query_location (loc : UsageKey) : UsageKey :=
  if is_CCXBlockUsageLocator loc then to_block_locator loc else loc.

(** The value of a call that returns. *)
Definition returned {A} (r : Result A) : option A :=
  match r with
  | Return a => Some a
  | Raise _ => None
  end.

(** What the loop of [_get_overrides_for_ccx] makes of one row, when it
    makes something of it. *)
Definition decode_value (fs : gmap string Field) (r : CcxFieldOverride)
    : option Value :=
  match fs !! o_field r with
  | None => None
  | Some field =>
      match loads (o_value r) with
      | None => None
      | Some json => returned (from_json field json)
      end
  end.

(** The exception the body of the loop raises at a row it makes nothing
    of: [KeyError] from [block.fields[...]] when the block has no field
    of that name, [ValueError] from [json.loads] when the text is not
    JSON, and otherwise what the field's [from_json] raises. *)
Definition raised_at (fs : gmap string Field) (r : CcxFieldOverride) (e : Exc)
    : Prop :=
  match fs !! o_field r with
  | None => e = KeyError
  | Some field =>
      match loads (o_value r) with
      | None => e = ValueError
      | Some json => from_json field json = Raise e
      end
  end.

(** ... and of a list of rows. *)
Fixpoint decode_all (fs : gmap string Field) (rows : list CcxFieldOverride)
    (acc : gmap string Value) : option (gmap string Value) :=
  match rows with
  | [] => Some acc
  | r :: rest =>
      match decode_value fs r with
      | None => None
      | Some v => decode_all fs rest (<[o_field r := v]> acc)
      end
  end.

(** The value a mapping of overrides gives for a field. *)
Definition override_or (default : Value) (entry : gmap string Value)
    (name : string) : Value :=
  match entry !! name with
  | Some value => value
  | None => default
  end.

(** The cache mapping of a block, empty when the block has none yet. *)
Definition cache_of (b : Block) : gmap Z (gmap string Value) :=
  match _ccx_overrides b with
  | Some cache => cache
  | None => ∅
  end.

(** The block with a cache mapping, which the read creates when the block
    has none. *)
Definition with_cache_attr (s : State) : State :=
  with_block (with_ccx_overrides (Some (cache_of (block s))) (block s)) s.

(** The cache states in which dropping the entry goes through: the block
    has no cache mapping, or the mapping has an entry for the context. *)
Definition droppable (c : Z) (b : Block) : Prop :=
  _ccx_overrides b = None ∨ is_Some (cached_entry c b).

(** What the codec of a field makes of a value written and read back. *)
Definition read_back (field : Field) (value : Value) : option Value :=
  match loads (dumps (to_json field value)) with
  | Some json => returned (from_json field json)
  | None => None
  end.

(** ** Helper facts on states *)

Lemma with_trace_same (s : State) : with_trace (trace s) s = s.
Proof. by destruct s. Qed.

Lemma with_trace_nil (s : State) : with_trace (trace s ++ []) s = s.
Proof. rewrite app_nil_r. apply with_trace_same. Qed.

(** ** The provider: blocks outside any custom course *)

(** C8. A block whose identifier is neither a course key nor a usage key
    and that bears no location attribute: [get] logs one error, raises
    nothing and returns the caller's default; nothing else changes. *)
Theorem get_unrecognised_identifier_degrades
    (name : string) (default : Value) (s : State) :
  id_attr (block s) = IdOther →
  location (block s) = None →
  get name default s = (Return default, with_trace (trace s ++ [LogError]) s).
Proof.
  intros Hid Hloc. unfold get, bind, read. simpl. by rewrite Hid, Hloc.
Qed.

(** C2. A block whose identifier does not resolve to a context-qualified
    course key: [get] returns exactly the default, for every field name
    and default; the block and both views of the override table are
    unchanged and every event added to the trace is one that does not
    touch the override table. *)
Theorem get_without_context_returns_default
    (name : string) (default : Value) (s : State) :
  (∀ k, resolved_course_key (block s) = Some k → is_CCXLocator k = false) →
  ∃ evs,
    get name default s = (Return default, with_trace (trace s ++ evs) s)
    ∧ Forall (λ e, is_store_query e = false) evs.
Proof.
  intros Hres. unfold resolved_course_key in Hres.
  unfold get, bind, read. simpl.
  destruct (id_attr (block s)) as [k|u|] eqn:Hid.
  - specialize (Hres k eq_refl). destruct k; [|done].
    exists []. simpl. by rewrite with_trace_nil.
  - specialize (Hres _ eq_refl). destruct (course_key u); [|done].
    exists []. simpl. by rewrite with_trace_nil.
  - destruct (location (block s)) as [loc|] eqn:Hloc.
    + specialize (Hres _ eq_refl). destruct (course_key loc); [|done].
      exists []. simpl. by rewrite with_trace_nil.
    + exists [LogError]. simpl. split; [done|]. by constructor.
Qed.

(** ** Running computations step by step *)

Lemma bind_Return {A B} (m : M A) (k : A → M B) (s s' : State) (a : A) :
  m s = (Return a, s') → bind m k s = k a s'.
Proof. intros Hm. unfold bind. by rewrite Hm. Qed.

Lemma bind_Raise {A B} (m : M A) (k : A → M B) (s s' : State) (e : Exc) :
  m s = (Raise e, s') → bind m k s = (Raise e, s').
Proof. intros Hm. unfold bind. by rewrite Hm. Qed.

Lemma try_except_Return {A} (body handler : M A) (e : Exc) (s s' : State) (a : A) :
  body s = (Return a, s') → try_except body e handler s = (Return a, s').
Proof. intros Hm. unfold try_except. by rewrite Hm. Qed.

Lemma try_except_caught {A} (body handler : M A) (e : Exc) (s s' : State) :
  body s = (Raise e, s') → try_except body e handler s = handler s'.
Proof. intros Hm. unfold try_except. rewrite Hm. by rewrite decide_True. Qed.

Lemma try_except_uncaught {A} (body handler : M A) (e e' : Exc) (s s' : State) :
  body s = (Raise e', s') → e' ≠ e →
  try_except body e handler s = (Raise e', s').
Proof. intros Hm Hne. unfold try_except. rewrite Hm. by rewrite decide_False. Qed.

Lemma block_location_Return (loc : UsageKey) (s : State) :
  location (block s) = Some loc → block_location s = (Return loc, s).
Proof. intros Hloc. unfold block_location, bind, read. simpl. by rewrite Hloc. Qed.

Lemma block_field_Return (name : string) (field : Field) (s : State) :
  fields (block s) !! name = Some field → block_field name s = (Return field, s).
Proof. intros Hf. unfold block_field, bind, read. simpl. by rewrite Hf. Qed.

(** ** Looking rows up *)

Lemma filter_none {A} (P : A → Prop) `{!∀ x, Decision (P x)} (l : list A) :
  Forall (λ x, ¬ P x) l → filter P l = [].
Proof.
  induction 1 as [|x l Hx _ IH]; [done|].
  by rewrite filter_cons_False.
Qed.

(** A table whose rows have distinct keys meets the constraint. *)
Lemma unique_together_NoDup (rows : list CcxFieldOverride) :
  NoDup (row_key <$> rows) → unique_together rows.
Proof.
  intros Hnd c loc f. induction rows as [|r rows IH]; [simpl; lia|].
  apply NoDup_cons in Hnd as [Hr Hnd]. specialize (IH Hnd).
  destruct (decide (has_key c loc f r)) as [Hk|Hk].
  - rewrite (filter_cons_True (has_key c loc f)) by done. simpl.
    destruct (filter (has_key c loc f) rows) as [|x l] eqn:Hfilter; [simpl; lia|].
    exfalso. apply Hr.
    assert (x ∈ filter (has_key c loc f) rows) as Hx by (rewrite Hfilter; left).
    apply list_elem_of_filter in Hx as [Hxk Hx].
    apply list_elem_of_fmap. exists x. split; [|done].
    unfold row_key. destruct Hk as (-> & -> & ->).
    by destruct Hxk as (-> & -> & ->).
  - by rewrite (filter_cons_False (has_key c loc f)).
Qed.

Lemma contexts_get_missing (pk : Z) (s : State) :
  Forall (λ c, ccx_id c ≠ pk) (contexts s) →
  contexts_get pk s
  = (Raise DoesNotExist, with_trace (trace s ++ [QueryContext pk]) s).
Proof.
  intros Hnone. unfold contexts_get, bind, emit, read. simpl.
  by rewrite (filter_none _ _ Hnone).
Qed.

Lemma contexts_get_found (pk : Z) (ccx : CustomCourseForEdX) (s : State) :
  filter (λ c, ccx_id c = pk) (contexts s) = [ccx] →
  contexts_get pk s
  = (Return ccx, with_trace (trace s ++ [QueryContext pk]) s).
Proof.
  intros Hone. unfold contexts_get, bind, emit, read. simpl. by rewrite Hone.
Qed.

Lemma objects_get_missing (c : Z) (loc : UsageKey) (f : string) (s : State) :
  Forall (λ r, ¬ has_key c loc f r) (overrides s) →
  objects_get c loc f s
  = (Raise DoesNotExist, with_trace (trace s ++ [QueryGet c loc f]) s).
Proof.
  intros Hnone. unfold objects_get, bind, emit, read. simpl.
  by rewrite (proj2 (list_find_None _ _) Hnone).
Qed.

Lemma unique_found_once (rows : list CcxFieldOverride) c loc f i r :
  unique_together rows →
  list_find (has_key c loc f) rows = Some (i, r) →
  length (filter (has_key c loc f) rows) = 1%nat.
Proof.
  intros Huniq [Hi [Hr _]]%list_find_Some.
  assert (r ∈ filter (has_key c loc f) rows) as Hin.
  { apply list_elem_of_filter. split; [done|]. by eapply list_elem_of_lookup_2. }
  specialize (Huniq c loc f).
  destruct (filter (has_key c loc f) rows) as [|x l].
  - by apply elem_of_nil in Hin.
  - simpl in *. lia.
Qed.

Lemma objects_get_found (c : Z) (loc : UsageKey) (f : string) i r (s : State) :
  unique_together (overrides s) →
  list_find (has_key c loc f) (overrides s) = Some (i, r) →
  objects_get c loc f s
  = (Return (i, r), with_trace (trace s ++ [QueryGet c loc f]) s).
Proof.
  intros Huniq Hfind. unfold objects_get, bind, emit, read. simpl.
  rewrite Hfind. by rewrite decide_True by by eapply unique_found_once.
Qed.

(** ** Writing rows *)

Lemma execute_run (e : Event) (rows : list CcxFieldOverride) (s : State) :
  execute e rows s = (Return tt, written e rows s).
Proof.
  unfold execute, written, commit_unless_managed, bind, emit, modify. simpl.
  by destruct (managed s).
Qed.

Lemma objects_create_fresh (r : CcxFieldOverride) (s : State) :
  Forall (λ x, ¬ has_key (o_ccx r) (o_location r) (o_field r) x) (overrides s) →
  objects_create r s
  = (Return (length (overrides s), r),
     written (Insert r) (overrides s ++ [r]) s).
Proof.
  intros Hfresh. unfold objects_create.
  rewrite (bind_Return _ _ s s (overrides s)) by done.
  rewrite decide_False.
  - by rewrite (bind_Return _ _ _ _ tt (execute_run _ _ _)).
  - intros [x [Hx HP]]%Exists_exists.
    by eapply (proj1 (Forall_forall _ _) Hfresh).
Qed.

Lemma objects_create_conflict (r : CcxFieldOverride) (s : State) :
  Exists (has_key (o_ccx r) (o_location r) (o_field r)) (overrides s) →
  objects_create r s
  = (Raise IntegrityError, with_trace (trace s ++ [Insert r]) s).
Proof.
  intros Hin. unfold objects_create, bind, read. simpl.
  by rewrite decide_True.
Qed.

Lemma save_run (ir : nat * CcxFieldOverride) (s : State) :
  save ir s
  = (Return tt, written (Update ir.1 ir.2) (<[ir.1 := ir.2]> (overrides s)) s).
Proof.
  unfold save. rewrite (bind_Return _ _ s s (overrides s)) by done.
  apply execute_run.
Qed.

Lemma delete_row_run (ir : nat * CcxFieldOverride) (s : State) :
  delete_row ir s
  = (Return tt, written (Delete ir.1) (delete ir.1 (overrides s)) s).
Proof.
  unfold delete_row. rewrite (bind_Return _ _ s s (overrides s)) by done.
  apply execute_run.
Qed.

(** ** Dropping the cached entry *)

Lemma drop_cached_no_cache (ccx : CustomCourseForEdX) (s : State) :
  _ccx_overrides (block s) = None → drop_cached ccx s = (Return tt, s).
Proof. intros Hc. unfold drop_cached, bind, read. simpl. by rewrite Hc. Qed.

Lemma drop_cached_entry (ccx : CustomCourseForEdX) cache entry (s : State) :
  _ccx_overrides (block s) = Some cache →
  cache !! ccx_id ccx = Some entry →
  drop_cached ccx s
  = (Return tt,
     with_block (with_ccx_overrides (Some (delete (ccx_id ccx) cache)) (block s)) s).
Proof.
  intros Hc He. unfold drop_cached, ccx_overrides_delitem, bind, read. simpl.
  rewrite Hc. simpl. rewrite Hc. simpl. by rewrite He.
Qed.

Lemma drop_cached_no_entry (ccx : CustomCourseForEdX) cache (s : State) :
  _ccx_overrides (block s) = Some cache →
  cache !! ccx_id ccx = None →
  drop_cached ccx s = (Raise KeyError, s).
Proof.
  intros Hc He. unfold drop_cached, ccx_overrides_delitem, bind, read. simpl.
  rewrite Hc. simpl. rewrite Hc. simpl. by rewrite He.
Qed.

(** ** The writers, up to the cache *)

Lemma written_managed (e : Event) (rows : list CcxFieldOverride) (s : State) :
  managed s = true →
  written e rows s = with_overrides rows (with_trace (trace s ++ [e]) s).
Proof. intros Hm. unfold written. by rewrite Hm. Qed.

Lemma override_field_for_ccx_saved
    (ccx : CustomCourseForEdX) (name : string) (value : Value)
    (loc : UsageKey) (field : Field) (s : State) :
  location (block s) = Some loc →
  fields (block s) !! name = Some field →
  unique_together (overrides s) →
  let v := dumps (to_json field value) in
  let s1 : State :=
    {| block := block s;
       overrides := upserted (ccx_id ccx) loc name v (overrides s);
       committed := match list_find (has_key (ccx_id ccx) loc name) (overrides s) with
                    | None => committed s
                    | Some _ => overrides s
                    end;
       managed := true;
       contexts := contexts s;
       trace := trace s ++ upsert_events (ccx_id ccx) loc name v (overrides s) |} in
  override_field_for_ccx ccx name value s
  = on_exit (managed s) (drop_cached ccx s1).
Proof.
  intros Hloc Hfield Huniq v s1.
  unfold override_field_for_ccx, commit_on_success. f_equal.
  set (s0 := with_managed true s).
  erewrite bind_Return by by apply block_field_Return.
  fold v.
  destruct (list_find (has_key (ccx_id ccx) loc name) (overrides s))
    as [[i r]|] eqn:Hfind.
  - (* a row has the key: the insert is refused, the row is updated *)
    erewrite bind_Return; cycle 1.
    { erewrite try_except_caught; cycle 1.
      { erewrite bind_Return by by apply block_location_Return.
        apply objects_create_conflict. simpl.
        apply list_find_Some in Hfind as [Hi [Hr _]].
        apply Exists_exists. exists r. split; [|done].
        by eapply list_elem_of_lookup_2. }
      erewrite bind_Return by reflexivity.
      erewrite bind_Return by by apply block_location_Return.
      erewrite bind_Return by by apply objects_get_found.
      reflexivity. }
    erewrite bind_Return by apply save_run.
    f_equal. subst s1 s0. unfold upserted, upsert_events. rewrite Hfind.
    rewrite written_managed by done. simpl. by rewrite <-!app_assoc.
  - (* no row has the key: the insert goes through *)
    erewrite bind_Return; cycle 1.
    { erewrite try_except_Return; [done|].
      erewrite bind_Return by by apply block_location_Return.
      apply objects_create_fresh. simpl.
      by apply (proj1 (list_find_None _ _)). }
    erewrite bind_Return by apply save_run.
    f_equal. subst s1 s0. unfold upserted, upsert_events. rewrite Hfind.
    rewrite !written_managed by done. simpl.
    rewrite insert_app_r_alt by done. rewrite Nat.sub_diag. simpl.
    by rewrite <-!app_assoc.
Qed.

Lemma clear_override_for_ccx_absent
    (ccx : CustomCourseForEdX) (name : string) (loc : UsageKey) (s : State) :
  location (block s) = Some loc →
  Forall (λ r, ¬ has_key (ccx_id ccx) loc name r) (overrides s) →
  clear_override_for_ccx ccx name s
  = (Return tt, with_trace (trace s ++ [QueryGet (ccx_id ccx) loc name]) s).
Proof.
  intros Hloc Hnone. unfold clear_override_for_ccx.
  erewrite try_except_caught; [done|].
  erewrite bind_Return by by apply block_location_Return.
  erewrite bind_Raise; [done|].
  by apply objects_get_missing.
Qed.

Lemma clear_override_for_ccx_deleted
    (ccx : CustomCourseForEdX) (name : string) (loc : UsageKey)
    (i : nat) (r : CcxFieldOverride) (s : State) :
  location (block s) = Some loc →
  unique_together (overrides s) →
  list_find (has_key (ccx_id ccx) loc name) (overrides s) = Some (i, r) →
  clear_override_for_ccx ccx name s
  = try_except (drop_cached ccx) DoesNotExist (ret tt)
      (written (Delete i) (delete i (overrides s))
         (with_trace (trace s ++ [QueryGet (ccx_id ccx) loc name]) s)).
Proof.
  intros Hloc Huniq Hfind. unfold clear_override_for_ccx, try_except.
  erewrite bind_Return by by apply block_location_Return.
  erewrite bind_Return by by apply objects_get_found.
  by erewrite bind_Return by apply delete_row_run.
Qed.

(** ** Reading: decoding the rows of a block *)

Lemma decode_override_state acc r (s : State) : (decode_override acc r s).2 = s.
Proof.
  unfold decode_override, block_field, bind, read, or_raise, of_result. simpl.
  destruct (fields (block s) !! o_field r) as [field|]; [|done]. simpl.
  destruct (loads (o_value r)) as [json|]; [|done]. simpl.
  by destruct (from_json field json).
Qed.

Lemma for_each_decode_state rows acc (s : State) :
  (for_each decode_override rows acc s).2 = s.
Proof.
  revert acc. induction rows as [|r rows IH]; intros acc; [done|].
  simpl. unfold bind.
  pose proof (decode_override_state acc r s) as Hs.
  destruct (decode_override acc r s) as [[m|e] s']; simpl in Hs; subst s'; [|done].
  apply IH.
Qed.

Lemma decode_override_Return acc r v (s : State) :
  decode_value (fields (block s)) r = Some v →
  decode_override acc r s = (Return (<[o_field r := v]> acc), s).
Proof.
  unfold decode_value, decode_override, block_field, bind, read, or_raise,
    of_result.
  simpl. destruct (fields (block s) !! o_field r) as [field|]; [|done]. simpl.
  destruct (loads (o_value r)) as [json|]; [|done]. simpl.
  destruct (from_json field json) as [v'|e]; [|done]. by intros [= ->].
Qed.

Lemma for_each_decode_Return rows acc m (s : State) :
  decode_all (fields (block s)) rows acc = Some m →
  for_each decode_override rows acc s = (Return m, s).
Proof.
  revert acc. induction rows as [|r rows IH]; intros acc; simpl.
  - by intros [= ->].
  - destruct (decode_value (fields (block s)) r) as [v|] eqn:Hv; [|done].
    intros Hall. erewrite bind_Return by by apply decode_override_Return.
    by apply IH.
Qed.

Lemma decode_all_absent fs rows acc m (n : string) :
  decode_all fs rows acc = Some m →
  Forall (λ r, o_field r ≠ n) rows →
  m !! n = acc !! n.
Proof.
  revert acc. induction rows as [|r rows IH]; intros acc; simpl.
  - by intros [= ->].
  - destruct (decode_value fs r) as [v|]; [|done].
    intros Hall [Hr Hrest]%Forall_cons.
    rewrite (IH _ Hall Hrest). by rewrite lookup_insert_ne.
Qed.

Lemma decode_all_present fs rows1 r rows2 acc m v :
  decode_all fs (rows1 ++ r :: rows2) acc = Some m →
  Forall (λ x, o_field x ≠ o_field r) rows2 →
  decode_value fs r = Some v →
  m !! o_field r = Some v.
Proof.
  revert acc. induction rows1 as [|x rows1 IH]; intros acc; simpl.
  - intros Hall Hrest Hv. rewrite Hv in Hall.
    rewrite (decode_all_absent _ _ _ _ _ Hall Hrest).
    by rewrite lookup_insert_eq.
  - destruct (decode_value fs x); [|done]. apply IH.
Qed.

Lemma decode_all_is_Some fs rows acc :
  Forall (λ r, is_Some (decode_value fs r)) rows →
  is_Some (decode_all fs rows acc).
Proof.
  revert acc. induction rows as [|r rows IH]; intros acc; simpl.
  - by eexists.
  - intros [[v Hv] Hrest]%Forall_cons. rewrite Hv. by apply IH.
Qed.

(** ** Reading through the cache *)

Lemma cached_entry_cache_of (c : Z) (b : Block) :
  cached_entry c b = cache_of b !! c.
Proof. unfold cached_entry, cache_of. by destruct (_ccx_overrides b). Qed.

Lemma get_override_for_ccx_cached
    (ccx : CustomCourseForEdX) (name : string) (default : Value)
    (entry : gmap string Value) (s : State) :
  cached_entry (ccx_id ccx) (block s) = Some entry →
  get_override_for_ccx ccx name default s
  = (Return (override_or default entry name), s).
Proof.
  unfold cached_entry. intros Hentry.
  destruct (_ccx_overrides (block s)) as [cache|] eqn:Hcache; [|done].
  unfold get_override_for_ccx.
  rewrite (bind_Return _ _ s s (block s)) by done. rewrite Hcache.
  rewrite (bind_Return _ _ s s tt) by done.
  rewrite (bind_Return _ _ s s (block s)) by done. rewrite Hcache.
  rewrite (bind_Return _ _ s s cache) by done. rewrite Hentry.
  by rewrite (bind_Return _ _ s s entry).
Qed.

Lemma _get_overrides_for_ccx_run (ccx : CustomCourseForEdX) (loc : UsageKey)
    (s : State) :
  location (block s) = Some loc →
  _get_overrides_for_ccx ccx s
  = for_each decode_override
      (filter (at_location (ccx_id ccx) (query_location loc)) (overrides s)) ∅
      (with_trace (trace s ++ [QueryFilter (ccx_id ccx) (query_location loc)]) s).
Proof.
  intros Hloc. unfold _get_overrides_for_ccx.
  erewrite bind_Return by by apply block_location_Return.
  fold (query_location loc).
  erewrite bind_Return; [done|].
  unfold objects_filter. by erewrite bind_Return by reflexivity.
Qed.

Lemma get_override_for_ccx_fetches
    (ccx : CustomCourseForEdX) (name : string) (default : Value)
    (loc : UsageKey) (s : State) :
  cached_entry (ccx_id ccx) (block s) = None →
  location (block s) = Some loc →
  let s1 := with_trace (trace s ++ [QueryFilter (ccx_id ccx) (query_location loc)])
              (with_cache_attr s) in
  let rows := filter (at_location (ccx_id ccx) (query_location loc)) (overrides s) in
  get_override_for_ccx ccx name default s
  = bind (for_each decode_override rows ∅)
      (λ entry, bind (ccx_overrides_setitem (ccx_id ccx) entry)
                  (λ _, ret (override_or default entry name))) s1.
Proof.
  rewrite cached_entry_cache_of. intros Hentry Hloc s1 rows.
  unfold get_override_for_ccx.
  rewrite (bind_Return _ _ s s (block s)) by done.
  rewrite (bind_Return _ _ s (with_cache_attr s) tt); cycle 1.
  { unfold with_cache_attr, cache_of.
    destruct (_ccx_overrides (block s)) eqn:Hc; [|done].
    unfold ret. f_equal. destruct s as [[] ?]; simpl in *. by subst. }
  rewrite (bind_Return _ _ _ (with_cache_attr s) (block (with_cache_attr s)))
    by done.
  rewrite (bind_Return _ _ _ (with_cache_attr s) (cache_of (block s))) by done.
  rewrite Hentry.
  unfold bind at 1. unfold bind at 1.
  rewrite (_get_overrides_for_ccx_run _ loc) by done.
  change (overrides (with_cache_attr s)) with (overrides s).
  change (trace (with_cache_attr s)) with (trace s).
  fold rows. fold s1. unfold bind at 2.
  destruct (for_each decode_override rows ∅ s1) as [[entry|e] s2]; [|done].
  unfold bind.
  by destruct (ccx_overrides_setitem (ccx_id ccx) entry s2) as [[[]|e] s3].
Qed.

Lemma ccx_overrides_setitem_run (key : Z) (entry : gmap string Value)
    (cache : gmap Z (gmap string Value)) (s : State) :
  _ccx_overrides (block s) = Some cache →
  ccx_overrides_setitem key entry s
  = (Return tt,
     with_block (with_ccx_overrides (Some (<[key := entry]> cache)) (block s)) s).
Proof.
  intros Hc. unfold ccx_overrides_setitem, bind, read. simpl. by rewrite Hc.
Qed.

Lemma get_override_for_ccx_fetched
    (ccx : CustomCourseForEdX) (name : string) (default : Value)
    (loc : UsageKey) (entry : gmap string Value) (s : State) :
  cached_entry (ccx_id ccx) (block s) = None →
  location (block s) = Some loc →
  decode_all (fields (block s))
    (filter (at_location (ccx_id ccx) (query_location loc)) (overrides s)) ∅
  = Some entry →
  get_override_for_ccx ccx name default s
  = (Return (override_or default entry name),
     with_block
       (with_ccx_overrides (Some (<[ccx_id ccx := entry]> (cache_of (block s))))
          (block s))
       (with_trace (trace s ++ [QueryFilter (ccx_id ccx) (query_location loc)]) s)).
Proof.
  intros Hentry Hloc Hall.
  rewrite (get_override_for_ccx_fetches _ _ _ loc) by done.
  erewrite bind_Return by by apply for_each_decode_Return.
  by erewrite bind_Return by by apply ccx_overrides_setitem_run.
Qed.

Lemma get_override_for_ccx_refetches
    (ccx : CustomCourseForEdX) (name : string) (default : Value)
    (loc : UsageKey) (s : State) :
  cached_entry (ccx_id ccx) (block s) = None →
  location (block s) = Some loc →
  adds_events (get_override_for_ccx ccx name default) s
    [QueryFilter (ccx_id ccx) (query_location loc)].
Proof.
  intros Hentry Hloc. unfold adds_events.
  rewrite (get_override_for_ccx_fetches _ _ _ loc) by done.
  unfold bind at 1.
  match goal with |- context [for_each ?f ?rows ?acc ?s1] =>
    pose proof (for_each_decode_state rows acc s1) as Hs;
    destruct (for_each f rows acc s1) as [[entry|e] s2]
  end; simpl in Hs; subst s2; [|done].
  by erewrite bind_Return by by apply ccx_overrides_setitem_run.
Qed.

(** The provider, once the block resolves to a custom course that has its
    record. *)
Lemma get_resolved (ccx : CustomCourseForEdX) (course name : string)
    (default : Value) (s : State) :
  resolved_course_key (block s) = Some (CCXLocator course (ccx_id ccx)) →
  filter (λ c, ccx_id c = ccx_id ccx) (contexts s) = [ccx] →
  get name default s
  = get_override_for_ccx ccx name default
      (with_trace (trace s ++ [QueryContext (ccx_id ccx)]) s).
Proof.
  intros Hres Hctx.
  assert (Hcur : get_current_ccx (inl (CCXLocator course (ccx_id ccx))) s
                 = (Return (Some ccx),
                    with_trace (trace s ++ [QueryContext (ccx_id ccx)]) s)).
  { unfold get_current_ccx, bind, ret. simpl.
    by rewrite (contexts_get_found _ _ _ Hctx). }
  unfold resolved_course_key in Hres. unfold get.
  rewrite (bind_Return _ _ s s (block s)) by done.
  erewrite (bind_Return _ _ s s (Some (CCXLocator course (ccx_id ccx)))); cycle 1.
  { destruct (id_attr (block s)) as [k|u|]; simplify_eq/=.
    - done.
    - by rewrite Hres.
    - destruct (location (block s)); simplify_eq/=. by rewrite Hres. }
  by erewrite bind_Return by apply Hcur.
Qed.

(** ** Errors that propagate, errors that are absorbed *)

(** C9. A context-qualified course key whose context id has no Context
    record: [get_current_ccx] raises [DoesNotExist], whether it is handed
    the key or its text, and [get] lets the exception through to its
    caller. *)
Theorem get_current_ccx_not_found_propagates
    (course : string) (n : Z) (s : State) :
  Forall (λ c, ccx_id c ≠ n) (contexts s) →
  let failed : State := with_trace (trace s ++ [QueryContext n]) s in
  get_current_ccx (inl (CCXLocator course n)) s = (Raise DoesNotExist, failed)
  ∧ (∀ text, from_string text = Some (CCXLocator course n) →
       get_current_ccx (inr text) s = (Raise DoesNotExist, failed))
  ∧ (∀ name default,
       resolved_course_key (block s) = Some (CCXLocator course n) →
       get name default s = (Raise DoesNotExist, failed)).
Proof.
  intros Hnone failed.
  assert (Hkey : get_current_ccx (inl (CCXLocator course n)) s
                 = (Raise DoesNotExist, failed)).
  { unfold get_current_ccx, bind, ret. simpl.
    by rewrite (contexts_get_missing _ _ Hnone). }
  split; [done|]. split.
  - intros text Htext. unfold get_current_ccx, bind, or_raise. rewrite Htext.
    simpl. by rewrite (contexts_get_missing _ _ Hnone).
  - intros name default Hres. unfold resolved_course_key in Hres.
    unfold get, bind, read. simpl.
    destruct (id_attr (block s)) as [k|u|]; simplify_eq/=.
    + fold (bind (A:=option CustomCourseForEdX) (B:=Value)).
      by rewrite Hkey.
    + rewrite Hres. by rewrite Hkey.
    + destruct (location (block s)) as [loc|]; simplify_eq/=.
      rewrite Hres. by rewrite Hkey.
Qed.

(** C7. Clearing a field that has no override record for the block's
    location in this context: [clear_override_for_ccx] returns normally;
    the block, the override table and its committed view are unchanged,
    the one event is the lookup that found nothing. *)
Theorem clear_override_absent_is_noop
    (ccx : CustomCourseForEdX) (name : string) (loc : UsageKey) (s : State) :
  location (block s) = Some loc →
  Forall (λ r, ¬ has_key (ccx_id ccx) loc name r) (overrides s) →
  clear_override_for_ccx ccx name s
  = (Return tt, with_trace (trace s ++ [QueryGet (ccx_id ccx) loc name]) s).
Proof. apply clear_override_for_ccx_absent. Qed.

(** ** The cache entry that is not there *)

Lemma written_block (e : Event) (rows : list CcxFieldOverride) (s : State) :
  block (written e rows s) = block s.
Proof. unfold written. by destruct (managed s). Qed.

Lemma written_overrides (e : Event) (rows : list CcxFieldOverride) (s : State) :
  overrides (written e rows s) = rows.
Proof. unfold written. by destruct (managed s). Qed.

Lemma written_committed (e : Event) (rows : list CcxFieldOverride) (s : State) :
  committed (written e rows s) = if managed s then committed s else rows.
Proof. unfold written. by destruct (managed s). Qed.

Lemma written_contexts (e : Event) (rows : list CcxFieldOverride) (s : State) :
  contexts (written e rows s) = contexts s.
Proof. unfold written. by destruct (managed s). Qed.

Lemma written_trace (e : Event) (rows : list CcxFieldOverride) (s : State) :
  trace (written e rows s) = trace s ++ [e].
Proof. unfold written. by destruct (managed s). Qed.

(** C10 (amended). A block whose cache mapping has no entry for the
    context's id, and a table that meets its uniqueness constraint.
    [override_field_for_ccx] of a field of the block runs its insert or
    update and its save, then raises [KeyError], which nothing catches;
    the transaction boundary rolls the connection back to its last
    commit: the table is then the one last committed before the call
    when the insert went through, and the one the call found when the
    insert met a record, which the handler has committed. Whenever no
    write was pending at the call that is the table, and the committed
    table, the caller had. [clear_override_for_ccx] on a field that has a
    record deletes the row, then raises [KeyError], which nothing
    catches; the delete stays. *)
Theorem missing_cache_entry_raises_KeyError
    (ccx : CustomCourseForEdX) (name : string) (loc : UsageKey)
    (cache : gmap Z (gmap string Value)) (s : State) :
  location (block s) = Some loc →
  _ccx_overrides (block s) = Some cache →
  cache !! ccx_id ccx = None →
  unique_together (overrides s) →
  let clear := clear_override_for_ccx ccx name s in
  let found := list_find (has_key (ccx_id ccx) loc name) (overrides s) in
  let last_commit := match found with
                     | Some _ => overrides s
                     | None => committed s
                     end in
  (∀ (value : Value) (field : Field),
     fields (block s) !! name = Some field →
     let set := override_field_for_ccx ccx name value s in
     set.1 = Raise KeyError
     ∧ trace set.2
       = trace s ++ upsert_events (ccx_id ccx) loc name
                      (dumps (to_json field value)) (overrides s)
     ∧ overrides set.2 = last_commit
     ∧ committed set.2 = last_commit
     ∧ managed set.2 = managed s
     ∧ block set.2 = block s
     ∧ (committed s = overrides s →
        overrides set.2 = overrides s ∧ committed set.2 = committed s))
  ∧ match found with
    | Some ir =>
        clear.1 = Raise KeyError
        ∧ overrides clear.2 = delete ir.1 (overrides s)
        ∧ committed clear.2
          = (if managed s then committed s else delete ir.1 (overrides s))
        ∧ block clear.2 = block s
    | None => clear.1 = Return tt ∧ overrides clear.2 = overrides s
    end.
Proof.
  intros Hloc Hcache Hentry Huniq clear found last_commit. split.
  - intros value field Hfield set. subst set found last_commit.
    rewrite (override_field_for_ccx_saved _ _ _ loc field) by done.
    erewrite drop_cached_no_entry by done. simpl.
    by destruct (list_find _ _).
  - subst clear found.
    destruct (list_find (has_key (ccx_id ccx) loc name) (overrides s))
      as [[i r]|] eqn:Hfind.
    + rewrite (clear_override_for_ccx_deleted _ _ loc i r) by done.
      erewrite try_except_uncaught; [|apply drop_cached_no_entry with cache|done].
      * simpl. rewrite written_overrides, written_committed, written_block.
        done.
      * by rewrite written_block.
      * done.
    + rewrite (clear_override_for_ccx_absent _ _ loc); [done|done|].
      by apply (proj1 (list_find_None _ _)).
Qed.

(** ** Invalidation *)

Lemma drop_cached_invalidates (ccx : CustomCourseForEdX) (s : State) :
  droppable (ccx_id ccx) (block s) →
  ∃ b', drop_cached ccx s = (Return tt, with_block b' s)
        ∧ cached_entry (ccx_id ccx) b' = None
        ∧ id_attr b' = id_attr (block s)
        ∧ location b' = location (block s)
        ∧ fields b' = fields (block s).
Proof.
  intros [Hnone|[entry Hentry]].
  - exists (block s). rewrite drop_cached_no_cache by done.
    unfold cached_entry. rewrite Hnone. by destruct s.
  - unfold cached_entry in Hentry.
    destruct (_ccx_overrides (block s)) as [cache|] eqn:Hcache; [|done].
    eexists. erewrite drop_cached_entry by done.
    split; [done|]. unfold cached_entry. simpl.
    by rewrite lookup_delete_eq.
Qed.

(** C5 (amended). A write that changes the store, on a block that has no
    cache mapping or has in it an entry for the context: after
    [override_field_for_ccx], and after a [clear_override_for_ccx] that
    finds the record, the block has no cached entry for the context id
    and the next read queries the store. A [clear_override_for_ccx] that
    finds no record does nothing to the block, its cache included. *)
Theorem store_writes_drop_cached_entry
    (ccx : CustomCourseForEdX) (name : string) (value : Value)
    (loc : UsageKey) (field : Field) (s : State) :
  location (block s) = Some loc →
  fields (block s) !! name = Some field →
  unique_together (overrides s) →
  droppable (ccx_id ccx) (block s) →
  let set := override_field_for_ccx ccx name value s in
  let clear := clear_override_for_ccx ccx name s in
  let refetched (after : State) : Prop :=
    cached_entry (ccx_id ccx) (block after) = None
    ∧ ∀ n d, adds_events (get_override_for_ccx ccx n d) after
               [QueryFilter (ccx_id ccx) (query_location loc)] in
  (set.1 = Return tt ∧ refetched set.2)
  ∧ clear.1 = Return tt
  ∧ match list_find (has_key (ccx_id ccx) loc name) (overrides s) with
    | Some _ => refetched clear.2
    | None => block clear.2 = block s
    end.
Proof.
  intros Hloc Hfield Huniq Hdrop set clear refetched. split; [|split].
  - subst set. rewrite (override_field_for_ccx_saved _ _ _ loc field) by done.
    match goal with |- context [drop_cached ccx ?s1] =>
      destruct (drop_cached_invalidates ccx s1) as (b' & -> & Hb' & _ & Hl & _)
    end; [done|].
    simpl in *. split; [done|]. split; [done|].
    intros n d. apply get_override_for_ccx_refetches; simpl; [done|].
    by rewrite Hl.
  - subst clear.
    destruct (list_find (has_key (ccx_id ccx) loc name) (overrides s))
      as [[i r]|] eqn:Hfind.
    + rewrite (clear_override_for_ccx_deleted _ _ loc i r) by done.
      match goal with |- context [try_except _ _ _ ?s1] =>
        destruct (drop_cached_invalidates ccx s1) as (b' & Hrun & _)
      end; [by rewrite written_block|].
      by erewrite try_except_Return by apply Hrun.
    + rewrite (clear_override_for_ccx_absent _ _ loc); [done|done|].
      by apply (proj1 (list_find_None _ _)).
  - subst clear.
    destruct (list_find (has_key (ccx_id ccx) loc name) (overrides s))
      as [[i r]|] eqn:Hfind.
    + rewrite (clear_override_for_ccx_deleted _ _ loc i r) by done.
      match goal with |- context [try_except _ _ _ ?s1] =>
        destruct (drop_cached_invalidates ccx s1) as (b' & Hrun & Hb' & _ & Hl & _)
      end; [by rewrite written_block|].
      erewrite try_except_Return by apply Hrun. simpl.
      split; [done|].
      intros n d. apply get_override_for_ccx_refetches; simpl; [done|].
      by rewrite Hl, written_block.
    + rewrite (clear_override_for_ccx_absent _ _ loc); [done|done|].
      by apply (proj1 (list_find_None _ _)).
Qed.

(** ** Clearing, then reading *)

Lemma filter_nil_Forall {A} (P : A → Prop) `{!∀ x, Decision (P x)} (l : list A) :
  filter P l = [] → Forall (λ x, ¬ P x) l.
Proof.
  intros Hnil. apply Forall_forall. intros x Hx HP.
  by eapply filter_nil_not_elem_of.
Qed.

(** Under the uniqueness constraint, the table without the row of a key
    has no row of that key. *)
Lemma unique_delete_none (rows : list CcxFieldOverride) c loc f i r :
  unique_together rows →
  rows !! i = Some r →
  has_key c loc f r →
  Forall (λ x, ¬ has_key c loc f x) (delete i rows).
Proof.
  intros Huniq Hi Hr. specialize (Huniq c loc f).
  rewrite <-(take_drop_middle rows i r Hi) in Huniq.
  rewrite (filter_app (has_key c loc f)) in Huniq.
  rewrite (filter_cons_True (has_key c loc f)) in Huniq by done.
  rewrite length_app in Huniq.
  simpl in Huniq. rewrite delete_take_drop. apply Forall_app. split.
  - apply (filter_nil_Forall (has_key c loc f)), length_zero_iff_nil. lia.
  - apply (filter_nil_Forall (has_key c loc f)), length_zero_iff_nil. lia.
Qed.

Lemma no_key_no_field (rows : list CcxFieldOverride) c loc f :
  Forall (λ r, ¬ has_key c loc f r) rows →
  Forall (λ r, o_field r ≠ f) (filter (at_location c loc) rows).
Proof.
  intros Hnone. apply Forall_forall.
  intros r [[Hc Hl] Hr]%list_elem_of_filter Hf.
  by apply (proj1 (Forall_forall _ _) Hnone r Hr).
Qed.

Lemma decode_all_Some_inv fs rows acc m :
  decode_all fs rows acc = Some m →
  Forall (λ r, is_Some (decode_value fs r)) rows.
Proof.
  revert acc. induction rows as [|r rows IH]; intros acc; simpl; [done|].
  destruct (decode_value fs r) as [v|] eqn:Hv; [|done].
  intros Hall. constructor; [by eexists|]. by eapply IH.
Qed.

Lemma decode_all_after_delete fs (rows : list CcxFieldOverride) c loc i acc m :
  decode_all fs (filter (at_location c loc) rows) acc = Some m →
  is_Some (decode_all fs (filter (at_location c loc) (delete i rows)) acc).
Proof.
  intros Hall%decode_all_Some_inv. apply decode_all_is_Some.
  apply Forall_forall. intros r [Hat Hr%list_elem_of_delete_inv]%list_elem_of_filter.
  apply (proj1 (Forall_forall _ _) Hall). by apply list_elem_of_filter.
Qed.

Lemma query_location_base (loc : UsageKey) :
  base_form loc → query_location loc = loc.
Proof. unfold base_form, query_location. by intros ->. Qed.

(** Where clearing and reading use the same location: a block in base
    form that resolves to the context, whose rows in the store decode and
    whose cache is absent or holds for the context what the store holds.
    [clear_override_for_ccx] returns, and the [get] that follows returns
    the caller's default, for every default. *)
Lemma clear_then_get_returns_default
    (ccx : CustomCourseForEdX) (course name : string) (default : Value)
    (loc : UsageKey) (entry : gmap string Value) (s : State) :
  location (block s) = Some loc →
  base_form loc →
  resolved_course_key (block s) = Some (CCXLocator course (ccx_id ccx)) →
  filter (λ c, ccx_id c = ccx_id ccx) (contexts s) = [ccx] →
  unique_together (overrides s) →
  decode_all (fields (block s))
    (filter (at_location (ccx_id ccx) loc) (overrides s)) ∅ = Some entry →
  _ccx_overrides (block s) = None
  ∨ cached_entry (ccx_id ccx) (block s) = Some entry →
  ∃ s1 s2,
    clear_override_for_ccx ccx name s = (Return tt, s1)
    ∧ get name default s1 = (Return default, s2).
Proof.
  intros Hloc Hbase Hres Hctx Huniq Hall Hcache.
  destruct (list_find (has_key (ccx_id ccx) loc name) (overrides s))
    as [[i r]|] eqn:Hfind.
  - (* the record is there: it is deleted, the entry dropped, the read
       fetches the rows that are left *)
    rewrite (clear_override_for_ccx_deleted _ _ loc i r) by done.
    match goal with |- context [try_except _ _ _ ?s1] =>
      destruct (drop_cached_invalidates ccx s1)
        as (b' & Hrun & Hb' & Hid & Hl & Hf)
    end.
    { rewrite written_block. destruct Hcache as [?|?]; [by left|by right]. }
    erewrite try_except_Return by apply Hrun.
    rewrite written_block in Hid, Hl, Hf.
    destruct (decode_all_after_delete _ _ _ _ i _ _ Hall) as [left_over Hleft].
    eexists _, _. split; [done|].
    erewrite (get_resolved ccx course); cycle 1.
    { unfold resolved_course_key in *. simpl. by rewrite Hid, Hl. }
    { simpl. by rewrite written_contexts. }
    erewrite (get_override_for_ccx_fetched _ _ _ loc left_over); cycle 1.
    { done. }
    { simpl. by rewrite Hl. }
    { simpl. rewrite written_overrides, Hf.
      by rewrite query_location_base. }
    f_equal. unfold override_or.
    rewrite (decode_all_absent _ _ _ _ name Hleft), lookup_empty; [done|].
    apply no_key_no_field.
    apply list_find_Some in Hfind as (Hi & Hr & _).
    by eapply unique_delete_none.
  - (* no record: nothing happens, and what the cache or the store holds
       has no value for the field *)
    apply (proj1 (list_find_None _ _)) in Hfind.
    rewrite (clear_override_for_ccx_absent _ _ loc) by done.
    assert (override_or default entry name = default) as Hdefault.
    { unfold override_or.
      rewrite (decode_all_absent _ _ _ _ name Hall), lookup_empty; [done|].
      by apply no_key_no_field. }
    destruct Hcache as [Hnone|Hentry].
    + eexists _, _. split; [done|].
      erewrite (get_resolved ccx course) by done.
      erewrite (get_override_for_ccx_fetched _ _ _ loc entry); cycle 1.
      { unfold cached_entry. simpl. by rewrite Hnone. }
      { done. }
      { simpl. by rewrite query_location_base. }
      rewrite Hdefault. reflexivity.
    + eexists _, _. split; [done|].
      erewrite (get_resolved ccx course) by done.
      erewrite get_override_for_ccx_cached by done.
      rewrite Hdefault. reflexivity.
Qed.

(** ** The nominal cases: what the writers do for a well-placed block *)

(** The table after the save, around the row of the key. *)
Lemma upserted_split (rows : list CcxFieldOverride) c loc f v :
  unique_together rows →
  ∃ l1 l2,
    upserted c loc f v rows = l1 ++ override_row c loc f v :: l2
    ∧ Forall (λ x, ¬ has_key c loc f x) l1
    ∧ Forall (λ x, ¬ has_key c loc f x) l2
    ∧ (∀ x, x ∈ l1 ++ l2 → x ∈ rows).
Proof.
  intros Huniq. unfold upserted.
  destruct (list_find (has_key c loc f) rows) as [[i r]|] eqn:Hfind.
  - apply list_find_Some in Hfind as (Hi & Hr & _).
    exists (take i rows), (drop (S i) rows). simpl.
    pose proof (unique_delete_none _ _ _ _ _ _ Huniq Hi Hr) as Hnone.
    rewrite delete_take_drop in Hnone. apply Forall_app in Hnone as [H1 H2].
    split; [|split; [done|split; [done|]]].
    + rewrite insert_take_drop by by eapply lookup_lt_Some.
      destruct Hr as (Hc & Hl & Hf). unfold override_row.
      by rewrite Hc, Hl, Hf.
    + intros x Hx. rewrite <-delete_take_drop in Hx.
      by eapply list_elem_of_delete_inv.
  - exists rows, []. split; [done|].
    split; [by apply (proj1 (list_find_None _ _))|].
    split; [done|]. intros x. by rewrite app_nil_r.
Qed.

(** After the save exactly one row has the key, and it holds the value. *)
Lemma upserted_has_key (rows : list CcxFieldOverride) c loc f v :
  unique_together rows →
  filter (has_key c loc f) (upserted c loc f v rows) = [override_row c loc f v].
Proof.
  intros (l1 & l2 & -> & H1 & H2 & _)%(upserted_split _ c loc f v).
  rewrite (filter_app (has_key c loc f)).
  rewrite (filter_cons_True (has_key c loc f)) by done.
  by rewrite !(filter_none (has_key c loc f)).
Qed.

(** The rows of the other keys are the ones there were. *)
Lemma upserted_other_key (rows : list CcxFieldOverride) c loc f v c' loc' f' :
  unique_together rows →
  (c', loc', f') ≠ (c, loc, f) →
  length (filter (has_key c' loc' f') (upserted c loc f v rows))
  = length (filter (has_key c' loc' f') rows).
Proof.
  intros Huniq Hne. unfold upserted.
  assert (∀ x, has_key c loc f x → ¬ has_key c' loc' f' x) as Hother.
  { intros x (<- & <- & <-) (<- & <- & <-). by apply Hne. }
  destruct (list_find (has_key c loc f) rows) as [[i r]|] eqn:Hfind.
  - apply list_find_Some in Hfind as (Hi & Hr & _). simpl.
    rewrite insert_take_drop by by eapply lookup_lt_Some.
    rewrite <-(take_drop_middle rows i r Hi) at 3.
    rewrite !(filter_app (has_key c' loc' f')).
    rewrite !(filter_cons_False (has_key c' loc' f')); [done|by apply Hother|].
    apply Hother. by destruct Hr as (? & ? & ?).
  - rewrite (filter_app (has_key c' loc' f')).
    rewrite (filter_cons_False (has_key c' loc' f')) by by apply Hother.
    by rewrite filter_nil, app_nil_r.
Qed.

(** The uniqueness constraint holds after the save. *)
Lemma upserted_unique (rows : list CcxFieldOverride) c loc f v :
  unique_together rows → unique_together (upserted c loc f v rows).
Proof.
  intros Huniq c' loc' f'.
  destruct (decide ((c', loc', f') = (c, loc, f))) as [[= -> -> ->]|Hne].
  - by rewrite upserted_has_key.
  - rewrite upserted_other_key by done. apply Huniq.
Qed.

(** [override_field_for_ccx] on a block whose cache lets the entry be
    dropped: it returns, the table is the upserted one and is committed. *)
Lemma override_field_for_ccx_Return
    (ccx : CustomCourseForEdX) (name : string) (value : Value)
    (loc : UsageKey) (field : Field) (s : State) :
  location (block s) = Some loc →
  fields (block s) !! name = Some field →
  unique_together (overrides s) →
  droppable (ccx_id ccx) (block s) →
  ∃ s',
    override_field_for_ccx ccx name value s = (Return tt, s')
    ∧ overrides s'
      = upserted (ccx_id ccx) loc name (dumps (to_json field value)) (overrides s)
    ∧ committed s' = overrides s'
    ∧ managed s' = managed s
    ∧ contexts s' = contexts s
    ∧ cached_entry (ccx_id ccx) (block s') = None
    ∧ (_ccx_overrides (block s) = None ↔ _ccx_overrides (block s') = None)
    ∧ id_attr (block s') = id_attr (block s)
    ∧ location (block s') = location (block s)
    ∧ fields (block s') = fields (block s).
Proof.
  intros Hloc Hfield Huniq Hdrop.
  rewrite (override_field_for_ccx_saved _ _ _ loc field) by done.
  destruct Hdrop as [Hnone|[entry Hentry]].
  - rewrite drop_cached_no_cache by done. eexists. split; [done|]. simpl.
    unfold cached_entry. by rewrite Hnone.
  - unfold cached_entry in Hentry.
    destruct (_ccx_overrides (block s)) as [cache|] eqn:Hcache; [|done].
    erewrite drop_cached_entry by done. eexists. split; [done|]. simpl.
    unfold cached_entry. simpl. rewrite lookup_delete_eq.
    repeat split; done.
Qed.

(** Two overrides of the same field of a block that has no cache: both
    return; one row has the key, it holds the second value serialized,
    and it is committed. *)
Lemma override_twice_leaves_one_row
    (ccx : CustomCourseForEdX) (name : string) (v1 v2 : Value)
    (loc : UsageKey) (field : Field) (s : State) :
  location (block s) = Some loc →
  fields (block s) !! name = Some field →
  unique_together (overrides s) →
  _ccx_overrides (block s) = None →
  ∃ s1 s2,
    override_field_for_ccx ccx name v1 s = (Return tt, s1)
    ∧ override_field_for_ccx ccx name v2 s1 = (Return tt, s2)
    ∧ filter (has_key (ccx_id ccx) loc name) (overrides s2)
      = [override_row (ccx_id ccx) loc name (dumps (to_json field v2))]
    ∧ committed s2 = overrides s2.
Proof.
  intros Hloc Hfield Huniq Hnone.
  destruct (override_field_for_ccx_Return ccx name v1 loc field s)
    as (s1 & Hrun1 & Hrows1 & _ & _ & _ & _ & Hnone1 & _ & Hloc1 & Hfields1);
    [done|done|done|by left|].
  destruct (override_field_for_ccx_Return ccx name v2 loc field s1)
    as (s2 & Hrun2 & Hrows2 & Hcommitted2 & _).
  { by rewrite Hloc1. }
  { by rewrite Hfields1. }
  { rewrite Hrows1. by apply upserted_unique. }
  { left. by apply Hnone1. }
  exists s1, s2. split; [done|]. split; [done|]. split; [|done].
  rewrite Hrows2. apply upserted_has_key.
  rewrite Hrows1. by apply upserted_unique.
Qed.

(** The round trip, for a block in base form that resolves to the
    context: when the codec of the field reads back what it writes and
    the other rows of the block decode, the [get] that follows an
    override returns the overriding value. *)
Lemma override_then_get_round_trip
    (ccx : CustomCourseForEdX) (course name : string) (value default : Value)
    (loc : UsageKey) (field : Field) (s : State) :
  location (block s) = Some loc →
  base_form loc →
  resolved_course_key (block s) = Some (CCXLocator course (ccx_id ccx)) →
  filter (λ c, ccx_id c = ccx_id ccx) (contexts s) = [ccx] →
  fields (block s) !! name = Some field →
  unique_together (overrides s) →
  droppable (ccx_id ccx) (block s) →
  read_back field value = Some value →
  Forall (λ r, is_Some (decode_value (fields (block s)) r))
    (filter (at_location (ccx_id ccx) loc) (overrides s)) →
  ∃ s1 s2,
    override_field_for_ccx ccx name value s = (Return tt, s1)
    ∧ get name default s1 = (Return value, s2).
Proof.
  intros Hloc Hbase Hres Hctx Hfield Huniq Hdrop Hcodec Hdecode.
  destruct (override_field_for_ccx_Return ccx name value loc field s)
    as (s1 & Hrun & Hrows & _ & _ & Hctx1 & Hgone & _ & Hid1 & Hloc1 & Hfields1);
    [done..|].
  set (row := override_row (ccx_id ccx) loc name (dumps (to_json field value))).
  destruct (upserted_split (overrides s) (ccx_id ccx) loc name
              (dumps (to_json field value)) Huniq)
    as (l1 & l2 & Hsplit & _ & Hl2 & Hsub).
  fold row in Hsplit.
  assert (decode_value (fields (block s)) row = Some value) as Hrow.
  { unfold decode_value. simpl. rewrite Hfield. apply Hcodec. }
  assert (filter (at_location (ccx_id ccx) loc) (overrides s1)
          = filter (at_location (ccx_id ccx) loc) l1
            ++ row :: filter (at_location (ccx_id ccx) loc) l2) as Hfilter.
  { rewrite Hrows, Hsplit, (filter_app (at_location (ccx_id ccx) loc)).
    by rewrite (filter_cons_True (at_location (ccx_id ccx) loc)). }
  assert (is_Some (decode_all (fields (block s))
                     (filter (at_location (ccx_id ccx) loc) (overrides s1)) ∅))
    as [entry Hentry].
  { apply decode_all_is_Some. rewrite Hfilter.
    assert (∀ l, (∀ x, x ∈ l → x ∈ overrides s) →
              Forall (λ r, is_Some (decode_value (fields (block s)) r))
                (filter (at_location (ccx_id ccx) loc) l)) as Hpart.
    { intros l Hl. apply Forall_forall.
      intros x [Hat Hx]%list_elem_of_filter.
      apply (proj1 (Forall_forall _ _) Hdecode).
      apply list_elem_of_filter. split; [done|]. by apply Hl. }
    apply Forall_app. split; [|constructor].
    - apply Hpart. intros x Hx. apply Hsub, elem_of_app. by left.
    - by eexists.
    - apply Hpart. intros x Hx. apply Hsub, elem_of_app. by right. }
  assert (entry !! name = Some value) as Hvalue.
  { rewrite Hfilter in Hentry.
    apply (decode_all_present _ _ _ _ _ _ _ Hentry); [|done].
    by apply no_key_no_field. }
  eexists _, _. split; [done|].
  erewrite (get_resolved ccx course); cycle 1.
  { unfold resolved_course_key in *. by rewrite Hid1, Hloc1. }
  { by rewrite Hctx1. }
  erewrite (get_override_for_ccx_fetched _ _ _ loc entry); cycle 1.
  { done. }
  { simpl. by rewrite Hloc1. }
  { simpl. by rewrite Hfields1, query_location_base. }
  unfold override_or. by rewrite Hvalue.
Qed.

(** ** The qualified location, in general *)

Lemma query_location_qualified (loc : UsageKey) :
  ¬ base_form loc →
  query_location loc = to_block_locator loc ∧ to_block_locator loc ≠ loc.
Proof. unfold base_form, query_location. by destruct loc. Qed.

(** A block whose location carries the context, no row on record under
    its base-form location: the override is written under the qualified
    location, and the [get] that follows returns the default. *)
Lemma override_of_qualified_block_not_read_back
    (ccx : CustomCourseForEdX) (course name : string) (value default : Value)
    (loc : UsageKey) (field : Field) (s : State) :
  location (block s) = Some loc →
  ¬ base_form loc →
  resolved_course_key (block s) = Some (CCXLocator course (ccx_id ccx)) →
  filter (λ c, ccx_id c = ccx_id ccx) (contexts s) = [ccx] →
  fields (block s) !! name = Some field →
  unique_together (overrides s) →
  droppable (ccx_id ccx) (block s) →
  Forall (λ r, ¬ at_location (ccx_id ccx) (to_block_locator loc) r) (overrides s) →
  ∃ s1 s2,
    override_field_for_ccx ccx name value s = (Return tt, s1)
    ∧ override_row (ccx_id ccx) loc name (dumps (to_json field value))
      ∈ overrides s1
    ∧ get name default s1 = (Return default, s2).
Proof.
  intros Hloc [Hquery Hne]%query_location_qualified Hres Hctx Hfield Huniq Hdrop
    Hnone.
  destruct (override_field_for_ccx_Return ccx name value loc field s)
    as (s1 & Hrun & Hrows & _ & _ & Hctx1 & Hgone & _ & Hid1 & Hloc1 & Hfields1);
    [done..|].
  destruct (upserted_split (overrides s) (ccx_id ccx) loc name
              (dumps (to_json field value)) Huniq)
    as (l1 & l2 & Hsplit & _ & _ & Hsub).
  assert (filter (at_location (ccx_id ccx) (query_location loc)) (overrides s1)
          = []) as Hfilter.
  { apply (filter_none (at_location (ccx_id ccx) (query_location loc))).
    rewrite Hquery, Hrows, Hsplit. apply Forall_forall.
    intros x [Hx|[->|Hx]%elem_of_cons]%elem_of_app.
    - apply (proj1 (Forall_forall _ _) Hnone), Hsub, elem_of_app. by left.
    - intros [_ Hat]. simpl in Hat. by apply Hne.
    - apply (proj1 (Forall_forall _ _) Hnone), Hsub, elem_of_app. by right. }
  eexists _, _. split; [done|]. split.
  { rewrite Hrows, Hsplit. apply elem_of_app. right. by left. }
  erewrite (get_resolved ccx course); cycle 1.
  { unfold resolved_course_key in *. by rewrite Hid1, Hloc1. }
  { by rewrite Hctx1. }
  erewrite (get_override_for_ccx_fetched _ _ _ loc ∅); cycle 1.
  { done. }
  { simpl. by rewrite Hloc1. }
  { simpl. by rewrite Hfilter. }
  unfold override_or. by rewrite lookup_empty.
Qed.

(** ** The second override of a block that has a cache, in general *)

(** A block whose cache has an entry for the context: the first override
    returns and drops the entry; the second raises [KeyError] and is
    rolled back, so the row of the key holds the first value. *)
Lemma override_twice_with_cache_raises
    (ccx : CustomCourseForEdX) (name : string) (v1 v2 : Value)
    (loc : UsageKey) (field : Field) (entry : gmap string Value) (s : State) :
  location (block s) = Some loc →
  fields (block s) !! name = Some field →
  unique_together (overrides s) →
  cached_entry (ccx_id ccx) (block s) = Some entry →
  ∃ s1 s2,
    override_field_for_ccx ccx name v1 s = (Return tt, s1)
    ∧ override_field_for_ccx ccx name v2 s1 = (Raise KeyError, s2)
    ∧ overrides s2 = overrides s1
    ∧ committed s2 = overrides s1
    ∧ filter (has_key (ccx_id ccx) loc name) (overrides s2)
      = [override_row (ccx_id ccx) loc name (dumps (to_json field v1))].
Proof.
  intros Hloc Hfield Huniq Hentry.
  destruct (override_field_for_ccx_Return ccx name v1 loc field s)
    as (s1 & Hrun1 & Hrows1 & Hcommitted1 & _ & _ & Hgone1 & Hattr1 & _
        & Hloc1 & Hfields1);
    [done|done|done|right; by eexists|].
  assert (unique_together (overrides s1)) as Huniq1.
  { rewrite Hrows1. by apply upserted_unique. }
  unfold cached_entry in Hentry, Hgone1.
  destruct (_ccx_overrides (block s)) as [cache|] eqn:Hcache; [|done].
  destruct (_ccx_overrides (block s1)) as [cache1|] eqn:Hcache1;
    [|destruct Hattr1 as [_ Hback]; by specialize (Hback eq_refl)].
  exists s1. eexists. split; [done|].
  rewrite (override_field_for_ccx_saved _ _ _ loc field);
    [|by rewrite Hloc1|by rewrite Hfields1|done].
  erewrite drop_cached_no_entry by done. simpl.
  split; [done|].
  assert (match list_find (has_key (ccx_id ccx) loc name) (overrides s1) with
          | Some _ => overrides s1
          | None => committed s1
          end = overrides s1) as ->.
  { rewrite Hcommitted1. by destruct (list_find _ _). }
  split; [done|]. split; [done|].
  rewrite Hrows1. by apply upserted_has_key.
Qed.

(** ** Further properties of the writers *)

(** The rows of the other keys, after the save. *)
Lemma upserted_other_rows (rows : list CcxFieldOverride) c loc f v c' loc' f' :
  (c', loc', f') ≠ (c, loc, f) →
  filter (has_key c' loc' f') (upserted c loc f v rows)
  = filter (has_key c' loc' f') rows.
Proof.
  intros Hne. unfold upserted.
  assert (∀ x, has_key c loc f x → ¬ has_key c' loc' f' x) as Hother.
  { intros x (<- & <- & <-) (<- & <- & <-). by apply Hne. }
  destruct (list_find (has_key c loc f) rows) as [[i r]|] eqn:Hfind.
  - apply list_find_Some in Hfind as (Hi & Hr & _). simpl.
    rewrite insert_take_drop by by eapply lookup_lt_Some.
    assert (filter (has_key c' loc' f') rows
            = filter (has_key c' loc' f') (take i rows)
              ++ filter (has_key c' loc' f') (drop (S i) rows)) as ->.
    { rewrite <-(take_drop_middle rows i r Hi) at 1.
      rewrite (filter_app (has_key c' loc' f')).
      by rewrite (filter_cons_False (has_key c' loc' f')) by by apply Hother. }
    rewrite (filter_app (has_key c' loc' f')).
    rewrite (filter_cons_False (has_key c' loc' f')); [done|].
    apply Hother. by destruct Hr as (? & ? & ?).
  - rewrite (filter_app (has_key c' loc' f')).
    rewrite (filter_cons_False (has_key c' loc' f')) by by apply Hother.
    by rewrite filter_nil, app_nil_r.
Qed.

(** The table without one of its rows: the rows of the other keys, and
    the uniqueness constraint. *)
Lemma delete_other_rows (rows : list CcxFieldOverride) i r c loc f c' loc' f' :
  rows !! i = Some r →
  has_key c loc f r →
  (c', loc', f') ≠ (c, loc, f) →
  filter (has_key c' loc' f') (delete i rows) = filter (has_key c' loc' f') rows.
Proof.
  intros Hi Hr Hne.
  assert (¬ has_key c' loc' f' r) as Hother.
  { destruct Hr as (<- & <- & <-). intros (<- & <- & <-). by apply Hne. }
  rewrite delete_take_drop. rewrite <-(take_drop_middle rows i r Hi) at 3.
  rewrite !(filter_app (has_key c' loc' f')).
  by rewrite (filter_cons_False (has_key c' loc' f')).
Qed.

Lemma delete_unique (rows : list CcxFieldOverride) i :
  unique_together rows → unique_together (delete i rows).
Proof.
  intros Huniq c loc f. specialize (Huniq c loc f).
  destruct (rows !! i) as [r|] eqn:Hi.
  - rewrite delete_take_drop.
    rewrite <-(take_drop_middle rows i r Hi) in Huniq.
    rewrite (filter_app (has_key c loc f)) in *.
    rewrite (filter_cons (has_key c loc f)) in Huniq.
    rewrite length_app in *.
    destruct (decide (has_key c loc f r)); simpl in Huniq; lia.
  - rewrite delete_take_drop.
    apply lookup_ge_None in Hi.
    rewrite take_ge, drop_ge, app_nil_r by lia. done.
Qed.

(** [override_field_for_ccx] for a field the block does not have. *)
Lemma override_field_for_ccx_unknown
    (ccx : CustomCourseForEdX) (name : string) (value : Value) (s : State) :
  fields (block s) !! name = None →
  committed s = overrides s →
  override_field_for_ccx ccx name value s = (Raise KeyError, s).
Proof.
  intros Hfield Hclean. unfold override_field_for_ccx, commit_on_success.
  erewrite bind_Raise; cycle 1.
  { unfold block_field, bind, read. simpl. rewrite Hfield. reflexivity. }
  simpl. f_equal. destruct s. simpl in *. by subst.
Qed.

(** [clear_override_for_ccx] for a field that has its record. *)
Lemma clear_override_for_ccx_Return
    (ccx : CustomCourseForEdX) (name : string) (loc : UsageKey)
    (r : CcxFieldOverride) (s : State) :
  location (block s) = Some loc →
  unique_together (overrides s) →
  droppable (ccx_id ccx) (block s) →
  r ∈ overrides s →
  has_key (ccx_id ccx) loc name r →
  ∃ i s',
    overrides s !! i = Some r
    ∧ clear_override_for_ccx ccx name s = (Return tt, s')
    ∧ overrides s' = delete i (overrides s)
    ∧ committed s' = (if managed s then committed s else overrides s')
    ∧ managed s' = managed s
    ∧ contexts s' = contexts s
    ∧ cached_entry (ccx_id ccx) (block s') = None
    ∧ (∀ c', c' ≠ ccx_id ccx →
         cached_entry c' (block s') = cached_entry c' (block s)).
Proof.
  intros Hloc Huniq Hdrop Hin Hr.
  destruct (list_find (has_key (ccx_id ccx) loc name) (overrides s))
    as [[i r']|] eqn:Hfind; cycle 1.
  { apply list_find_None in Hfind.
    by destruct (proj1 (Forall_forall _ _) Hfind r Hin). }
  pose proof Hfind as (Hi & Hr' & _)%list_find_Some.
  assert (r' = r) as ->.
  { apply list_elem_of_lookup_1 in Hin as [j Hj].
    destruct (decide (i = j)) as [->|Hij]; [congruence|].
    pose proof (unique_delete_none _ _ _ _ _ _ Huniq Hi Hr') as Hnone.
    exfalso. apply (proj1 (Forall_forall _ _) Hnone r); [|done].
    rewrite delete_take_drop. apply elem_of_app.
    destruct (decide (j < i)%nat).
    - left. apply elem_of_take. eauto.
    - right. apply list_elem_of_lookup. exists (j - S i)%nat.
      rewrite lookup_drop. rewrite <-Hj. f_equal. lia. }
  exists i. rewrite (clear_override_for_ccx_deleted _ _ loc i r) by done.
  destruct Hdrop as [Hnone|[entry Hentry]].
  - eexists. split; [done|]. split.
    { erewrite try_except_Return; [done|].
      apply drop_cached_no_cache. by rewrite written_block. }
    rewrite written_overrides, written_committed, written_block,
      written_contexts.
    unfold written. destruct (managed s) eqn:Hm; simpl; rewrite ?Hm;
      unfold cached_entry; rewrite Hnone; done.
  - unfold cached_entry in Hentry.
    destruct (_ccx_overrides (block s)) as [cache|] eqn:Hcache; [|done].
    eexists. split; [done|]. split.
    { erewrite try_except_Return; [done|].
      eapply drop_cached_entry; [rewrite written_block; exact Hcache|done]. }
    simpl. rewrite written_overrides, written_committed, written_block,
      written_contexts.
    unfold written, cached_entry. destruct (managed s) eqn:Hm; simpl;
      rewrite ?Hm, ?Hcache, lookup_delete_eq;
      (repeat split; try done);
      intros c' Hc'; by rewrite lookup_delete_ne.
Qed.

(** [override_field_for_ccx] and the cached entries of the other
    contexts. *)
Lemma override_field_for_ccx_other_entries
    (ccx : CustomCourseForEdX) (name : string) (value : Value)
    (loc : UsageKey) (field : Field) (s : State) :
  location (block s) = Some loc →
  fields (block s) !! name = Some field →
  unique_together (overrides s) →
  droppable (ccx_id ccx) (block s) →
  ∀ c', c' ≠ ccx_id ccx →
    cached_entry c' (block (override_field_for_ccx ccx name value s).2)
    = cached_entry c' (block s).
Proof.
  intros Hloc Hfield Huniq Hdrop c' Hc'.
  rewrite (override_field_for_ccx_saved _ _ _ loc field) by done.
  destruct Hdrop as [Hnone|[entry Hentry]].
  - by rewrite drop_cached_no_cache.
  - unfold cached_entry in Hentry.
    destruct (_ccx_overrides (block s)) as [cache|] eqn:Hcache; [|done].
    erewrite drop_cached_entry by done. simpl.
    unfold cached_entry. simpl. by rewrite Hcache, lookup_delete_ne.
Qed.

(** ** Further properties of the reader *)

Lemma query_location_strips (loc : UsageKey) :
  query_location loc = to_block_locator loc.
Proof. by destruct loc. Qed.

(** The tables of two states are the same. *)
Definition same_tables (s s' : State) : Prop :=
  overrides s' = overrides s
  ∧ committed s' = committed s
  ∧ managed s' = managed s
  ∧ contexts s' = contexts s.

Lemma same_tables_refl (s : State) : same_tables s s.
Proof. by repeat split. Qed.

Lemma same_tables_trans (s1 s2 s3 : State) :
  same_tables s1 s2 → same_tables s2 s3 → same_tables s1 s3.
Proof.
  intros (? & ? & ? & ?) (? & ? & ? & ?). repeat split; congruence.
Qed.

(** The read on a miss: the block gets its cache mapping when it has
    none, then the rows are fetched and the entry is stored. *)
Lemma get_override_for_ccx_miss
    (ccx : CustomCourseForEdX) (name : string) (default : Value) (s : State) :
  cached_entry (ccx_id ccx) (block s) = None →
  get_override_for_ccx ccx name default s
  = bind (_get_overrides_for_ccx ccx)
      (λ entry, bind (ccx_overrides_setitem (ccx_id ccx) entry)
                  (λ _, ret (override_or default entry name)))
      (with_cache_attr s).
Proof.
  rewrite cached_entry_cache_of. intros Hentry.
  unfold get_override_for_ccx.
  rewrite (bind_Return _ _ s s (block s)) by done.
  rewrite (bind_Return _ _ s (with_cache_attr s) tt); cycle 1.
  { unfold with_cache_attr, cache_of.
    destruct (_ccx_overrides (block s)) eqn:Hc; [|done].
    unfold ret. f_equal. destruct s as [[] ?]; simpl in *. by subst. }
  rewrite (bind_Return _ _ _ (with_cache_attr s) (block (with_cache_attr s)))
    by done.
  rewrite (bind_Return _ _ _ (with_cache_attr s) (cache_of (block s))) by done.
  rewrite Hentry. unfold bind.
  destruct (_get_overrides_for_ccx ccx (with_cache_attr s)) as [[entry|e] s1];
    [|done].
  by destruct (ccx_overrides_setitem (ccx_id ccx) entry s1) as [[[]|e] s2].
Qed.

(** The loop of the fetch when a row does not decode: the exception of
    the first such row. *)
Lemma for_each_decode_Raise rows acc (s : State) :
  decode_all (fields (block s)) rows acc = None →
  ∃ e before r after,
    for_each decode_override rows acc s = (Raise e, s)
    ∧ rows = before ++ r :: after
    ∧ Forall (λ x, is_Some (decode_value (fields (block s)) x)) before
    ∧ raised_at (fields (block s)) r e.
Proof.
  revert acc. induction rows as [|r rows IH]; intros acc; simpl; [done|].
  destruct (decode_value (fields (block s)) r) as [v|] eqn:Hv.
  - intros Hall.
    destruct (IH _ Hall) as (e & before & r' & after & Hrun & -> & Hok & He).
    exists e, (r :: before), r', after.
    split; [by erewrite bind_Return by by apply decode_override_Return|].
    split; [done|]. split; [|done].
    constructor; [by eexists|done].
  - intros _. unfold decode_value in Hv.
    assert (∃ e, decode_override acc r s = (Raise e, s)
                 ∧ raised_at (fields (block s)) r e) as (e & Hrun & He).
    { unfold raised_at.
      unfold decode_override, block_field, bind, read, or_raise, of_result. simpl.
      destruct (fields (block s) !! o_field r) as [field|]; simpl; [|by eauto].
      destruct (loads (o_value r)) as [json|]; simpl; [|by eauto].
      destruct (from_json field json) as [v|e]; [done|by eauto]. }
    exists e, [], r, rows.
    split; [by erewrite bind_Raise by apply Hrun|]. done.
Qed.

Lemma get_override_for_ccx_same_tables
    (ccx : CustomCourseForEdX) (name : string) (default : Value) (s : State) :
  same_tables s (get_override_for_ccx ccx name default s).2.
Proof.
  destruct (cached_entry (ccx_id ccx) (block s)) as [entry|] eqn:Hentry.
  { rewrite (get_override_for_ccx_cached _ _ _ entry) by done.
    apply same_tables_refl. }
  destruct (location (block s)) as [loc|] eqn:Hloc.
  - rewrite (get_override_for_ccx_fetches _ _ _ loc) by done.
    unfold bind at 1.
    match goal with |- context [for_each ?f ?rows ?acc ?s1] =>
      pose proof (for_each_decode_state rows acc s1) as Hs;
      destruct (for_each f rows acc s1) as [[m|e] s2]
    end; simpl in Hs; subst s2; [|by (unfold same_tables; simpl; repeat split)].
    erewrite bind_Return by by apply ccx_overrides_setitem_run.
    by (unfold same_tables; simpl; repeat split).
  - rewrite get_override_for_ccx_miss by done.
    erewrite bind_Raise; cycle 1.
    { unfold _get_overrides_for_ccx. erewrite bind_Raise; [reflexivity|].
      unfold block_location, bind, read. simpl. by rewrite Hloc. }
    by (unfold same_tables; simpl; repeat split).
Qed.

Lemma get_current_ccx_same_tables (course_id : CourseKey + string) (s : State) :
  same_tables s (get_current_ccx course_id s).2.
Proof.
  unfold get_current_ccx, contexts_get, bind, emit, read, or_raise, ret, raise.
  destruct course_id as [[course|course n]|text]; simpl.
  - by (unfold same_tables; simpl; repeat split).
  - by destruct (filter _ (contexts s)) as [|c [|c' l]]; unfold same_tables; simpl; repeat split.
  - destruct (from_string text) as [[course|course n]|]; simpl;
      [by (unfold same_tables; simpl; repeat split)| |by (unfold same_tables; simpl; repeat split)].
    by destruct (filter _ (contexts s)) as [|c [|c' l]]; unfold same_tables; simpl; repeat split.
Qed.

Lemma get_same_tables (name : string) (default : Value) (s : State) :
  same_tables s (get name default s).2.
Proof.
  assert (∀ k s0, same_tables s s0 →
            same_tables s
              (bind (get_current_ccx (inl k))
                 (λ ccx, match ccx with
                         | Some ccx => get_override_for_ccx ccx name default
                         | None => ret default
                         end) s0).2) as Hrest.
  { intros k s0 Hs0. unfold bind.
    pose proof (get_current_ccx_same_tables (inl k) s0) as Hcur.
    destruct (get_current_ccx (inl k) s0) as [[[ccx|]|e] s1]; simpl in Hcur.
    - eapply same_tables_trans; [|apply get_override_for_ccx_same_tables].
      by eapply same_tables_trans.
    - by eapply same_tables_trans.
    - by eapply same_tables_trans. }
  unfold get. rewrite (bind_Return _ _ s s (block s)) by done.
  destruct (id_attr (block s)) as [k|u|].
  - rewrite (bind_Return _ _ s s (Some k)) by done.
    apply Hrest, same_tables_refl.
  - rewrite (bind_Return _ _ s s (Some (course_key u))) by done.
    apply Hrest, same_tables_refl.
  - destruct (location (block s)) as [loc|].
    + rewrite (bind_Return _ _ s s (Some (course_key loc))) by done.
      apply Hrest, same_tables_refl.
    + by erewrite bind_Return by reflexivity.
Qed.

(** What a read returns when the row of the key is on record under the
    base-form location and the rows of the block decode. *)
Lemma get_override_for_ccx_finds_row
    (ccx : CustomCourseForEdX) (name : string) (default : Value)
    (loc : UsageKey) (r : CcxFieldOverride) (v : Value) (s : State) :
  location (block s) = Some loc →
  cached_entry (ccx_id ccx) (block s) = None →
  unique_together (overrides s) →
  r ∈ overrides s →
  has_key (ccx_id ccx) (to_block_locator loc) name r →
  decode_value (fields (block s)) r = Some v →
  Forall (λ x, is_Some (decode_value (fields (block s)) x))
    (filter (at_location (ccx_id ccx) (to_block_locator loc)) (overrides s)) →
  ∃ entry,
    entry !! name = Some v
    ∧ get_override_for_ccx ccx name default s
      = (Return v,
         with_block
           (with_ccx_overrides
              (Some (<[ccx_id ccx := entry]> (cache_of (block s)))) (block s))
           (with_trace
              (trace s ++ [QueryFilter (ccx_id ccx) (to_block_locator loc)]) s)).
Proof.
  intros Hloc Hmiss Huniq Hin Hr Hv Hdec.
  apply list_elem_of_lookup_1 in Hin as [i Hi].
  pose proof (unique_delete_none _ _ _ _ _ _ Huniq Hi Hr) as Hnone.
  rewrite delete_take_drop in Hnone. apply Forall_app in Hnone as [_ Hafter].
  set (P := at_location (ccx_id ccx) (to_block_locator loc)) in *.
  assert (filter P (overrides s)
          = filter P (take i (overrides s))
            ++ r :: filter P (drop (S i) (overrides s))) as Hfilter.
  { rewrite <-(take_drop_middle (overrides s) i r Hi) at 1.
    rewrite (filter_app P). rewrite (filter_cons_True P); [done|].
    destruct Hr as (? & ? & ?). by split. }
  destruct (decode_all_is_Some _ _ ∅ Hdec) as [entry Hentry].
  assert (entry !! name = Some v) as Hvalue.
  { destruct Hr as (Hc & Hl & Hn). rewrite <-Hn.
    rewrite Hfilter in Hentry.
    apply (decode_all_present _ _ _ _ _ _ _ Hentry); [|done].
    rewrite Hn. by apply no_key_no_field. }
  exists entry. split; [done|].
  rewrite (get_override_for_ccx_fetched _ _ _ loc entry);
    [|done|done|by rewrite query_location_strips].
  unfold override_or. by rewrite Hvalue, query_location_strips.
Qed.

(** Clearing on a block whose location carries the qualifier: the lookup
    is made with [block.location] as it is, so the row on record under
    the base-form location is not found; nothing is deleted, and the
    [get] that follows, which strips the qualifier, returns the value of
    that row. *)
Lemma clear_of_qualified_block_keeps_override
    (ccx : CustomCourseForEdX) (course name : string) (default : Value)
    (loc : UsageKey) (r : CcxFieldOverride) (v : Value) (s : State) :
  resolved_course_key (block s) = Some (CCXLocator course (ccx_id ccx)) →
  filter (λ c, ccx_id c = ccx_id ccx) (contexts s) = [ccx] →
  location (block s) = Some loc →
  cached_entry (ccx_id ccx) (block s) = None →
  unique_together (overrides s) →
  Forall (λ x, ¬ has_key (ccx_id ccx) loc name x) (overrides s) →
  r ∈ overrides s →
  has_key (ccx_id ccx) (to_block_locator loc) name r →
  decode_value (fields (block s)) r = Some v →
  Forall (λ x, is_Some (decode_value (fields (block s)) x))
    (filter (at_location (ccx_id ccx) (to_block_locator loc)) (overrides s)) →
  ∃ s1,
    clear_override_for_ccx ccx name s = (Return tt, s1)
    ∧ overrides s1 = overrides s
    ∧ (get name default s1).1 = Return v.
Proof.
  intros Hres Hctx Hloc Hmiss Huniq Hnone Hin Hr Hv Hdec.
  rewrite (clear_override_for_ccx_absent _ _ loc) by done.
  set (s1 := with_trace (trace s ++ [QueryGet (ccx_id ccx) loc name]) s).
  exists s1. split; [done|]. split; [done|].
  rewrite (get_resolved ccx course) by done.
  destruct (get_override_for_ccx_finds_row ccx name default loc r v
              (with_trace (trace s1 ++ [QueryContext (ccx_id ccx)]) s1))
    as (entry & _ & ->); [done..|].
  done.
Qed.

(** ** Further properties, stated *)

(** X1. Round trip through the two functions the course staff call, for a
    block in base form: after [override_field_for_ccx(ccx, block, name,
    value)], [get_override_for_ccx(ccx, block, name, default)] returns
    [value], when the codec of the field reads back what it writes and
    the other rows of the block decode. *)
Theorem override_then_get_override_returns_value
    (ccx : CustomCourseForEdX) (name : string) (value default : Value)
    (loc : UsageKey) (field : Field) (s : State) :
  location (block s) = Some loc →
  base_form loc →
  fields (block s) !! name = Some field →
  unique_together (overrides s) →
  droppable (ccx_id ccx) (block s) →
  read_back field value = Some value →
  Forall (λ r, is_Some (decode_value (fields (block s)) r))
    (filter (at_location (ccx_id ccx) loc) (overrides s)) →
  ∃ s1 s2,
    override_field_for_ccx ccx name value s = (Return tt, s1)
    ∧ get_override_for_ccx ccx name default s1 = (Return value, s2).
Proof.
  intros Hloc Hbase Hfield Huniq Hdrop Hcodec Hdecode.
  destruct (override_field_for_ccx_Return ccx name value loc field s)
    as (s1 & Hrun & Hrows & _ & _ & _ & Hgone & _ & _ & Hloc1 & Hfields1);
    [done..|].
  assert (to_block_locator loc = loc) as Hstrip.
  { rewrite <-query_location_strips. by apply query_location_base. }
  set (row := override_row (ccx_id ccx) loc name (dumps (to_json field value))).
  destruct (upserted_split (overrides s) (ccx_id ccx) loc name
              (dumps (to_json field value)) Huniq)
    as (l1 & l2 & Hsplit & _ & _ & Hsub).
  fold row in Hsplit.
  destruct (get_override_for_ccx_finds_row ccx name default loc row value s1)
    as (entry & _ & Hread).
  - by rewrite Hloc1.
  - done.
  - rewrite Hrows. by apply upserted_unique.
  - rewrite Hrows, Hsplit. apply elem_of_app. right. by left.
  - by rewrite Hstrip.
  - rewrite Hfields1. unfold decode_value. simpl. rewrite Hfield. apply Hcodec.
  - rewrite Hfields1, Hstrip, Hrows, Hsplit. apply Forall_forall.
    intros x [Hat Hx]%list_elem_of_filter.
    apply elem_of_app in Hx as [Hx|[->|Hx]%elem_of_cons].
    + apply (proj1 (Forall_forall _ _) Hdecode), list_elem_of_filter.
      split; [done|]. apply Hsub, elem_of_app. by left.
    + exists value. unfold decode_value. simpl. rewrite Hfield. apply Hcodec.
    + apply (proj1 (Forall_forall _ _) Hdecode), list_elem_of_filter.
      split; [done|]. apply Hsub, elem_of_app. by right.
  - eexists _, _. split; [done|]. exact Hread.
Qed.

(** X2. A successful [override_field_for_ccx] is an upsert: afterwards
    exactly one row has the key (context, [block.location], name) and it
    holds the serialized value; the rows of every other key are the ones
    there were; the uniqueness constraint still holds; the write is
    committed. *)
Theorem override_upserts_one_row
    (ccx : CustomCourseForEdX) (name : string) (value : Value)
    (loc : UsageKey) (field : Field) (s : State) :
  location (block s) = Some loc →
  fields (block s) !! name = Some field →
  unique_together (overrides s) →
  droppable (ccx_id ccx) (block s) →
  ∃ s',
    override_field_for_ccx ccx name value s = (Return tt, s')
    ∧ filter (has_key (ccx_id ccx) loc name) (overrides s')
      = [override_row (ccx_id ccx) loc name (dumps (to_json field value))]
    ∧ (∀ c' loc' f', (c', loc', f') ≠ (ccx_id ccx, loc, name) →
         filter (has_key c' loc' f') (overrides s')
         = filter (has_key c' loc' f') (overrides s))
    ∧ unique_together (overrides s')
    ∧ committed s' = overrides s'.
Proof.
  intros Hloc Hfield Huniq Hdrop.
  destruct (override_field_for_ccx_Return ccx name value loc field s)
    as (s' & Hrun & Hrows & Hcommitted & _); [done..|].
  exists s'. split; [done|]. rewrite Hrows.
  split; [by apply upserted_has_key|].
  split; [intros c' loc' f' Hne; by apply upserted_other_rows|].
  split; [by apply upserted_unique|]. by rewrite <-Hrows.
Qed.

(** X3. A [clear_override_for_ccx] of a field that has its record
    deletes that row and no other: afterwards no row has the key, the
    rows of every other key are the ones there were, the table is one row
    shorter and the uniqueness constraint still holds. *)
Theorem clear_deletes_only_the_row
    (ccx : CustomCourseForEdX) (name : string) (loc : UsageKey)
    (r : CcxFieldOverride) (s : State) :
  location (block s) = Some loc →
  unique_together (overrides s) →
  droppable (ccx_id ccx) (block s) →
  r ∈ overrides s →
  has_key (ccx_id ccx) loc name r →
  ∃ s',
    clear_override_for_ccx ccx name s = (Return tt, s')
    ∧ Forall (λ x, ¬ has_key (ccx_id ccx) loc name x) (overrides s')
    ∧ (∀ c' loc' f', (c', loc', f') ≠ (ccx_id ccx, loc, name) →
         filter (has_key c' loc' f') (overrides s')
         = filter (has_key c' loc' f') (overrides s))
    ∧ S (length (overrides s')) = length (overrides s)
    ∧ unique_together (overrides s').
Proof.
  intros Hloc Huniq Hdrop Hin Hr.
  destruct (clear_override_for_ccx_Return ccx name loc r s)
    as (i & s' & Hi & Hrun & Hrows & _); [done..|].
  exists s'. split; [done|]. rewrite Hrows.
  split; [by eapply unique_delete_none|].
  split; [intros c' loc' f' Hne; by eapply delete_other_rows|].
  split; [|by apply delete_unique].
  rewrite length_delete by by eexists.
  apply lookup_lt_Some in Hi. lia.
Qed.

(** X4. The cache works: the first [get_override_for_ccx] of a block for
    a context queries the store once and keeps what it decoded; a second
    read of the same block and context, for any field and default, is
    answered from that entry and leaves the state as it is, without a
    query. *)
Theorem second_read_answers_from_cache
    (ccx : CustomCourseForEdX) (name name' : string) (default default' : Value)
    (loc : UsageKey) (entry : gmap string Value) (s : State) :
  location (block s) = Some loc →
  cached_entry (ccx_id ccx) (block s) = None →
  decode_all (fields (block s))
    (filter (at_location (ccx_id ccx) (query_location loc)) (overrides s)) ∅
  = Some entry →
  ∃ s1,
    get_override_for_ccx ccx name default s
    = (Return (override_or default entry name), s1)
    ∧ trace s1 = trace s ++ [QueryFilter (ccx_id ccx) (query_location loc)]
    ∧ cached_entry (ccx_id ccx) (block s1) = Some entry
    ∧ get_override_for_ccx ccx name' default' s1
      = (Return (override_or default' entry name'), s1).
Proof.
  intros Hloc Hmiss Hall.
  eexists. split; [by apply (get_override_for_ccx_fetched _ _ _ loc)|].
  assert (cached_entry (ccx_id ccx)
            (with_ccx_overrides
               (Some (<[ccx_id ccx := entry]> (cache_of (block s)))) (block s))
          = Some entry) as Hhit.
  { unfold cached_entry. simpl. by rewrite lookup_insert_eq. }
  split; [done|]. split; [done|].
  by apply get_override_for_ccx_cached.
Qed.

(** X5. Reading never writes: whatever [get], [get_override_for_ccx] and
    [get_current_ccx] return or raise, the override table, its committed
    view, the transaction mode and the table of custom courses are
    afterwards what they were. *)
Theorem reads_never_write_tables
    (ccx : CustomCourseForEdX) (course_id : CourseKey + string)
    (name : string) (default : Value) (s : State) :
  same_tables s (get name default s).2
  ∧ same_tables s (get_override_for_ccx ccx name default s).2
  ∧ same_tables s (get_current_ccx course_id s).2.
Proof.
  split; [apply get_same_tables|].
  split; [apply get_override_for_ccx_same_tables|].
  apply get_current_ccx_same_tables.
Qed.

(** X6. The read strips the context qualifier: for a block whose location
    is in either form, [get_override_for_ccx] returns the decoded value
    of the row that is on record under the base-form location, and keeps
    it in the cache. *)
Theorem read_finds_row_under_base_location
    (ccx : CustomCourseForEdX) (name : string) (default : Value)
    (loc : UsageKey) (r : CcxFieldOverride) (v : Value) (s : State) :
  location (block s) = Some loc →
  cached_entry (ccx_id ccx) (block s) = None →
  unique_together (overrides s) →
  r ∈ overrides s →
  has_key (ccx_id ccx) (to_block_locator loc) name r →
  decode_value (fields (block s)) r = Some v →
  Forall (λ x, is_Some (decode_value (fields (block s)) x))
    (filter (at_location (ccx_id ccx) (to_block_locator loc)) (overrides s)) →
  (get_override_for_ccx ccx name default s).1 = Return v
  ∧ ∃ entry,
      cached_entry (ccx_id ccx) (block (get_override_for_ccx ccx name default s).2)
      = Some entry
      ∧ entry !! name = Some v.
Proof.
  intros Hloc Hmiss Huniq Hin Hr Hv Hdec.
  destruct (get_override_for_ccx_finds_row ccx name default loc r v s)
    as (entry & Hvalue & ->); [done..|].
  split; [done|]. exists entry. split; [|done].
  unfold cached_entry. simpl. by rewrite lookup_insert_eq.
Qed.

(** X7. Overrides do not leak: when no row is on record for this context,
    this block's base-form location and this field, the read returns the
    caller's default, whatever rows other contexts, other blocks and
    other fields have. *)
Theorem read_ignores_rows_of_other_keys
    (ccx : CustomCourseForEdX) (name : string) (default : Value)
    (loc : UsageKey) (s : State) :
  location (block s) = Some loc →
  cached_entry (ccx_id ccx) (block s) = None →
  Forall (λ r, ¬ has_key (ccx_id ccx) (to_block_locator loc) name r)
    (overrides s) →
  Forall (λ x, is_Some (decode_value (fields (block s)) x))
    (filter (at_location (ccx_id ccx) (to_block_locator loc)) (overrides s)) →
  (get_override_for_ccx ccx name default s).1 = Return default.
Proof.
  intros Hloc Hmiss Hnone Hdec.
  destruct (decode_all_is_Some _ _ ∅ Hdec) as [entry Hentry].
  rewrite (get_override_for_ccx_fetched _ _ _ loc entry);
    [|done|done|by rewrite query_location_strips].
  simpl. unfold override_or.
  rewrite (decode_all_absent _ _ _ _ name Hentry), lookup_empty; [done|].
  by apply no_key_no_field.
Qed.

(** X8. Overriding a field the block does not have: [block.fields[name]]
    raises [KeyError] before anything is written; with nothing pending on
    the connection the state is exactly what it was. *)
Theorem override_unknown_field_raises_KeyError
    (ccx : CustomCourseForEdX) (name : string) (value : Value) (s : State) :
  fields (block s) !! name = None →
  committed s = overrides s →
  override_field_for_ccx ccx name value s = (Raise KeyError, s).
Proof. apply override_field_for_ccx_unknown. Qed.

(** X9. A read that fails half way: when a row of the block does not
    decode, [get_override_for_ccx] raises, after the query, the exception
    of the first such row, which nothing catches: [KeyError] when the
    row's field is not one of the block's, [ValueError] when its text is
    not JSON, and otherwise whatever the field's [from_json] raises. The
    block is left with a cache mapping that has no entry for the
    context. *)
Theorem failed_read_leaves_cache_without_entry
    (ccx : CustomCourseForEdX) (name : string) (default : Value)
    (loc : UsageKey) (s : State) :
  location (block s) = Some loc →
  cached_entry (ccx_id ccx) (block s) = None →
  decode_all (fields (block s))
    (filter (at_location (ccx_id ccx) (query_location loc)) (overrides s)) ∅
  = None →
  ∃ e s',
    get_override_for_ccx ccx name default s = (Raise e, s')
    ∧ (∃ before r after,
         filter (at_location (ccx_id ccx) (query_location loc)) (overrides s)
         = before ++ r :: after
         ∧ Forall (λ x, is_Some (decode_value (fields (block s)) x)) before
         ∧ raised_at (fields (block s)) r e)
    ∧ trace s' = trace s ++ [QueryFilter (ccx_id ccx) (query_location loc)]
    ∧ _ccx_overrides (block s') = Some (cache_of (block s))
    ∧ cached_entry (ccx_id ccx) (block s') = None.
Proof.
  intros Hloc Hmiss Hall.
  rewrite (get_override_for_ccx_fetches _ _ _ loc) by done.
  destruct (for_each_decode_Raise
              (filter (at_location (ccx_id ccx) (query_location loc)) (overrides s))
              ∅
              (with_trace
                 (trace s ++ [QueryFilter (ccx_id ccx) (query_location loc)])
                 (with_cache_attr s)))
    as (e & before & r & after & Hrun & Hrows & Hok & He); [done|].
  exists e. eexists. split; [by erewrite bind_Raise by apply Hrun|].
  split; [by exists before, r, after|]. split; [done|]. split; [done|].
  rewrite cached_entry_cache_of in Hmiss. unfold cached_entry. by simpl.
Qed.

(** X10. Override, then clear, on a block that has no cache and a field
    that had no override: both return, and the override table and its
    committed view are again what they were before the override. *)
Theorem override_then_clear_restores_table
    (ccx : CustomCourseForEdX) (name : string) (value : Value)
    (loc : UsageKey) (field : Field) (s : State) :
  location (block s) = Some loc →
  fields (block s) !! name = Some field →
  unique_together (overrides s) →
  _ccx_overrides (block s) = None →
  Forall (λ r, ¬ has_key (ccx_id ccx) loc name r) (overrides s) →
  managed s = false →
  ∃ s1 s2,
    override_field_for_ccx ccx name value s = (Return tt, s1)
    ∧ clear_override_for_ccx ccx name s1 = (Return tt, s2)
    ∧ overrides s2 = overrides s
    ∧ committed s2 = overrides s.
Proof.
  intros Hloc Hfield Huniq Hnone Hfresh Hauto.
  destruct (override_field_for_ccx_Return ccx name value loc field s)
    as (s1 & Hrun1 & Hrows1 & _ & Hmanaged1 & _ & _ & Hattr1 & _ & Hloc1 & _);
    [done|done|done|by left|].
  assert (unique_together (overrides s1)) as Huniq1.
  { rewrite Hrows1. by apply upserted_unique. }
  unfold upserted in Hrows1.
  rewrite (proj2 (list_find_None _ _) Hfresh) in Hrows1.
  set (row := override_row (ccx_id ccx) loc name (dumps (to_json field value)))
    in *.
  destruct (clear_override_for_ccx_Return ccx name loc row s1)
    as (i & s2 & Hi & Hrun2 & Hrows2 & Hcommitted2 & _).
  { by rewrite Hloc1. }
  { done. }
  { left. by apply Hattr1. }
  { rewrite Hrows1. apply elem_of_app. right. by left. }
  { done. }
  assert (i = length (overrides s)) as ->.
  { rewrite Hrows1 in Hi.
    destruct (decide (i < length (overrides s))%nat) as [Hlt|Hge].
    - rewrite lookup_app_l in Hi by done.
      apply list_elem_of_lookup_2 in Hi.
      by destruct (proj1 (Forall_forall _ _) Hfresh row Hi).
    - apply lookup_lt_Some in Hi. rewrite length_app in Hi. simpl in Hi. lia. }
  assert (overrides s2 = overrides s) as Hback.
  { rewrite Hrows2, Hrows1, delete_middle. by rewrite app_nil_r. }
  exists s1, s2. split; [done|]. split; [done|]. split; [done|].
  by rewrite Hcommitted2, Hmanaged1, Hauto.
Qed.

(** X11. The cache is kept per context: a successful
    [override_field_for_ccx], a [clear_override_for_ccx] and a
    [get_override_for_ccx] for one context leave the block's cached
    entries of every other context as they were. *)
Theorem other_contexts_stay_cached
    (ccx : CustomCourseForEdX) (name : string) (value default : Value)
    (loc : UsageKey) (field : Field) (entry : gmap string Value) (c' : Z)
    (s : State) :
  location (block s) = Some loc →
  fields (block s) !! name = Some field →
  unique_together (overrides s) →
  droppable (ccx_id ccx) (block s) →
  decode_all (fields (block s))
    (filter (at_location (ccx_id ccx) (query_location loc)) (overrides s)) ∅
  = Some entry →
  c' ≠ ccx_id ccx →
  cached_entry c' (block (override_field_for_ccx ccx name value s).2)
  = cached_entry c' (block s)
  ∧ cached_entry c' (block (clear_override_for_ccx ccx name s).2)
    = cached_entry c' (block s)
  ∧ cached_entry c' (block (get_override_for_ccx ccx name default s).2)
    = cached_entry c' (block s).
Proof.
  intros Hloc Hfield Huniq Hdrop Hall Hc'.
  split; [by apply (override_field_for_ccx_other_entries _ _ _ loc field)|].
  split.
  - destruct (list_find (has_key (ccx_id ccx) loc name) (overrides s))
      as [[i r]|] eqn:Hfind.
    + apply list_find_Some in Hfind as (Hi & Hr & _).
      destruct (clear_override_for_ccx_Return ccx name loc r s)
        as (j & s' & _ & -> & _ & _ & _ & _ & _ & Hother);
        [done|done|done|by eapply list_elem_of_lookup_2|done|].
      by apply Hother.
    + rewrite (clear_override_for_ccx_absent _ _ loc); [done|done|].
      by apply (proj1 (list_find_None _ _)).
  - destruct (cached_entry (ccx_id ccx) (block s)) as [hit|] eqn:Hentry.
    + by rewrite (get_override_for_ccx_cached _ _ _ hit).
    + rewrite (get_override_for_ccx_fetched _ _ _ loc entry) by done.
      rewrite (cached_entry_cache_of c' (block s)).
      unfold cached_entry. simpl. by rewrite lookup_insert_ne.
Qed.

(** X12. [get_current_ccx] returns a custom course only for a key of the
    CCX kind, given as such or as its text, and then it is the course on
    record whose id the key carries; the one thing it does is the lookup
    by that id. *)
Theorem get_current_ccx_returns_the_keyed_course
    (course_id : CourseKey + string) (ccx : CustomCourseForEdX) (s s' : State) :
  get_current_ccx course_id s = (Return (Some ccx), s') →
  (∃ course,
     course_id = inl (CCXLocator course (ccx_id ccx))
     ∨ ∃ text, course_id = inr text
               ∧ from_string text = Some (CCXLocator course (ccx_id ccx)))
  ∧ ccx ∈ contexts s
  ∧ s' = with_trace (trace s ++ [QueryContext (ccx_id ccx)]) s.
Proof.
  assert (∀ n c s1,
            contexts_get n s = (Return c, s1) →
            ccx_id c = n ∧ c ∈ contexts s
            ∧ s1 = with_trace (trace s ++ [QueryContext n]) s) as Hget.
  { intros n c s1. unfold contexts_get, bind, emit, read. simpl.
    destruct (filter (λ x, ccx_id x = n) (contexts s)) as [|x [|y l]] eqn:Hf;
      simpl; [done| |done].
    intros [= -> <-].
    assert (c ∈ filter (λ x, ccx_id x = n) (contexts s)) as Hin
      by (rewrite Hf; left).
    by apply list_elem_of_filter in Hin as [? ?]. }
  unfold get_current_ccx, bind.
  destruct course_id as [[course|course n]|text]; simpl.
  - done.
  - destruct (contexts_get n s) as [[c|e] s1] eqn:Hrun; [|done].
    intros [= -> ->]. apply Hget in Hrun as (<- & Hin & ->).
    split; [|done]. exists course. by left.
  - destruct (from_string text) as [[course|course n]|] eqn:Htext; simpl;
      [done| |done].
    destruct (contexts_get n s) as [[c|e] s1] eqn:Hrun; [|done].
    intros [= -> ->]. apply Hget in Hrun as (<- & Hin & ->).
    split; [|done]. exists course. right. by exists text.
Qed.

(** X13. The provider, for a block it resolves to a custom course on
    record: [get] looks the course up, then returns the decoded value of
    the row on record for that course under the block's base-form
    location, not the default. *)
Theorem get_returns_override_on_record
    (ccx : CustomCourseForEdX) (course name : string) (default : Value)
    (loc : UsageKey) (r : CcxFieldOverride) (v : Value) (s : State) :
  resolved_course_key (block s) = Some (CCXLocator course (ccx_id ccx)) →
  filter (λ c, ccx_id c = ccx_id ccx) (contexts s) = [ccx] →
  location (block s) = Some loc →
  cached_entry (ccx_id ccx) (block s) = None →
  unique_together (overrides s) →
  r ∈ overrides s →
  has_key (ccx_id ccx) (to_block_locator loc) name r →
  decode_value (fields (block s)) r = Some v →
  Forall (λ x, is_Some (decode_value (fields (block s)) x))
    (filter (at_location (ccx_id ccx) (to_block_locator loc)) (overrides s)) →
  (get name default s).1 = Return v
  ∧ trace (get name default s).2
    = trace s ++ [QueryContext (ccx_id ccx);
                  QueryFilter (ccx_id ccx) (to_block_locator loc)].
Proof.
  intros Hres Hctx Hloc Hmiss Huniq Hin Hr Hv Hdec.
  rewrite (get_resolved ccx course) by done.
  destruct (get_override_for_ccx_finds_row ccx name default loc r v
              (with_trace (trace s ++ [QueryContext (ccx_id ccx)]) s))
    as (entry & _ & ->); [done..|].
  simpl. by rewrite <-app_assoc.
Qed.

End Overrides.

Arguments Field : clear implicits.
Arguments Block : clear implicits.
Arguments State : clear implicits.
Arguments M : clear implicits.

(** ** An instance: integer fields of a problem block

    JSON numbers are written and read in decimal; course keys are read
    from their [course-v1:] and [ccx-v1:] texts. *)

Module Demo.

Definition dumps (z : Z) : string :=
  DecimalString.NilZero.string_of_int (Z.to_int z).

Definition loads (text : string) : option Z :=
  Z.of_int <$> DecimalString.NilZero.int_of_string text.

Definition from_string (text : string) : option CourseKey :=
  if String.prefix "course-v1:" text
  then Some (CourseLocator (substring 10 (String.length text - 10) text))
  else if String.prefix "ccx-v1:" text
  then match index 0 "+ccx@" text with
       | Some i =>
           match DecimalString.NilZero.int_of_string
                   (substring (i + 5) (String.length text - (i + 5)) text) with
           | Some n => Some (CCXLocator (substring 7 (i - 7) text) (Z.of_int n))
           | None => None
           end
       | None => None
       end
  else None.

(** An integer field: its JSON form is the integer. *)
Definition Integer : Field Z Z := {| to_json := λ z, z; from_json := Return |}.

Definition ccx7 : CustomCourseForEdX := {| ccx_id := 7; ccx_course := "Demo" |}.

Definition problem_fields : gmap string (Field Z Z) :=
  {[ "max_attempts" := Integer; "weight" := Integer ]}.

Definition base_location : UsageKey := BlockUsageLocator "Demo" "problem1".

Definition ccx_location : UsageKey := CCXBlockUsageLocator "Demo" 7 "problem1".

(** The problem as the custom course serves it: its keys carry the
    context. *)
Definition ccx_problem (cache : option (gmap Z (gmap string Z))) : Block Z Z :=
  {| id_attr := IdUsageKey ccx_location; location := Some ccx_location;
     fields := problem_fields; _ccx_overrides := cache |}.

(** The problem with its location in base form, under a course key that
    carries the context. *)
Definition base_problem (cache : option (gmap Z (gmap string Z))) : Block Z Z :=
  {| id_attr := IdCourseKey (CCXLocator "Demo" 7); location := Some base_location;
     fields := problem_fields; _ccx_overrides := cache |}.

(** The problem in the base course. *)
Definition plain_problem : Block Z Z :=
  {| id_attr := IdUsageKey base_location; location := Some base_location;
     fields := problem_fields; _ccx_overrides := None |}.

(** An object that is no block: no keys, no location. *)
Definition stranger : Block Z Z :=
  {| id_attr := IdOther; location := None; fields := ∅; _ccx_overrides := None |}.

(** A request starts outside any transaction, nothing pending, with the
    one custom course on record. *)
Definition start (b : Block Z Z) (rows : list CcxFieldOverride) : State Z Z :=
  {| block := b; overrides := rows; committed := rows; managed := false;
     contexts := [ccx7]; trace := [] |}.

Definition max_attempts_row (loc : UsageKey) (n : Z) : CcxFieldOverride :=
  override_row 7 loc "max_attempts" (dumps n).

Definition weight_row (loc : UsageKey) (n : Z) : CcxFieldOverride :=
  override_row 7 loc "weight" (dumps n).

End Demo.

Import Demo.

(** ** The states the claims are tried on *)

(** The problem in the base course, one override on record. *)
Definition outside_any_ccx : State Z Z :=
  start plain_problem [max_attempts_row base_location 5].

(** Something that is no block. *)
Definition unrecognised : State Z Z := start stranger [].

(** The problem under the key of custom course 9, which has no record. *)
Definition orphaned : State Z Z :=
  start {| id_attr := IdOther;
           location := Some (CCXBlockUsageLocator "Demo" 9 "problem1");
           fields := problem_fields; _ccx_overrides := None |} [].

(** The problem in base form, never read, no override on record. *)
Definition fresh : State Z Z := start (base_problem None) [].

(** The problem in base form, never read, two overrides on record. *)
Definition overridden : State Z Z :=
  start (base_problem None)
    [max_attempts_row base_location 5; weight_row base_location 2].

(** The problem in base form, read before: its cache has an entry for
    custom course 7, and the override the entry has is on record. *)
Definition cached : State Z Z :=
  start (base_problem (Some {[ 7 := {[ "max_attempts" := 5 ]} ]}))
    [max_attempts_row base_location 5].

(** The problem in base form, with a cached entry for an override that is
    not on record. *)
Definition stale : State Z Z :=
  start (base_problem (Some {[ 7 := {[ "max_attempts" := 5 ]} ]})) [].

(** The problem in base form, with a cache mapping that has no entry for
    custom course 7, one override on record. *)
Definition emptied : State Z Z :=
  start (base_problem (Some ∅)) [max_attempts_row base_location 5].

(** The same block inside a transaction of the caller, in which a
    [weight] override was written and is not committed yet. *)
Definition pending : State Z Z :=
  {| block := base_problem (Some ∅);
     overrides := [weight_row base_location 2]; committed := [];
     managed := true; contexts := [ccx7]; trace := [] |}.

(** ... and with the [max_attempts] override committed before. *)
Definition pending_on_record : State Z Z :=
  {| block := base_problem (Some ∅);
     overrides := [max_attempts_row base_location 5; weight_row base_location 2];
     committed := [max_attempts_row base_location 5];
     managed := true; contexts := [ccx7]; trace := [] |}.

(** The problem as custom course 7 serves it, never read. *)
Definition served : State Z Z := start (ccx_problem None) [].

(** The problem as custom course 7 serves it, never read, with the two
    overrides on record under its base-form location. *)
Definition served_on_record : State Z Z :=
  start (ccx_problem None)
    [max_attempts_row base_location 5; weight_row base_location 2].

(** ** What the writers and the reader make of them *)

Definition served_set : Result unit * State Z Z :=
  override_field_for_ccx dumps ccx7 "max_attempts" 5 served.

Definition served_read : Result Z * State Z Z :=
  get loads from_string "max_attempts" 3 served_set.2.

Definition cached_set_5 : Result unit * State Z Z :=
  override_field_for_ccx dumps ccx7 "max_attempts" 5 cached.

Definition cached_set_8 : Result unit * State Z Z :=
  override_field_for_ccx dumps ccx7 "max_attempts" 8 cached_set_5.2.

Definition stale_cleared : Result unit * State Z Z :=
  clear_override_for_ccx ccx7 "max_attempts" stale.

Definition emptied_set : Result unit * State Z Z :=
  override_field_for_ccx dumps ccx7 "max_attempts" 8 emptied.

Definition emptied_clear : Result unit * State Z Z :=
  clear_override_for_ccx ccx7 "max_attempts" emptied.

Definition served_on_record_clear : Result unit * State Z Z :=
  clear_override_for_ccx ccx7 "max_attempts" served_on_record.

Definition served_on_record_read : Result Z * State Z Z :=
  get loads from_string "max_attempts" 3 served_on_record_clear.2.

(** ** The codecs of the instance *)

Example dumps_5 : dumps 5 = "5".
Proof. reflexivity. Qed.

Example loads_dumps_minus_12 : loads (dumps (-12)) = Some (-12).
Proof. reflexivity. Qed.

Example loads_not_json : loads "five" = None.
Proof. reflexivity. Qed.

Example from_string_ccx : from_string "ccx-v1:Demo+ccx@7" = Some (CCXLocator "Demo" 7).
Proof. reflexivity. Qed.

Example from_string_course : from_string "course-v1:Demo" = Some (CourseLocator "Demo").
Proof. reflexivity. Qed.

(** A JSON number that is written is read back. *)
Lemma loads_dumps (z : Z) : loads (dumps z) = Some z.
Proof.
  unfold loads, dumps. rewrite DecimalString.NilZero.isi.
  - simpl. f_equal. apply DecimalZ.of_to.
  - destruct z; simpl; try discriminate.
    intros [= Hnil]. by apply DecimalPos.Unsigned.to_uint_nonnil in Hnil.
  - destruct z; simpl; try discriminate.
    intros [= Hnil]. by apply DecimalPos.Unsigned.to_uint_nonnil in Hnil.
Qed.

Lemma Integer_read_back (z : Z) : read_back dumps loads Integer z = Some z.
Proof. unfold read_back. simpl. by rewrite loads_dumps. Qed.

(** ** The example of the specification *)

(** Before any override the default is returned, after the override its
    value, after the clear the default again. *)
Example max_attempts_3_5_3 :
  let before := get loads from_string "max_attempts" 3 fresh in
  let set := override_field_for_ccx dumps ccx7 "max_attempts" 5 before.2 in
  let after := get loads from_string "max_attempts" 3 set.2 in
  let clear := clear_override_for_ccx ccx7 "max_attempts" after.2 in
  let again := get loads from_string "max_attempts" 3 clear.2 in
  (before.1, set.1, after.1, clear.1, again.1)
  = (Return 3, Return tt, Return 5, Return tt, Return 3).
Proof. vm_compute. reflexivity. Qed.

(** For the problem in base form, whatever the value and the default:
    the override is read back, and a second override leaves one row. *)
Example base_problem_round_trip (n d : Z) :
  ∃ s1 s2,
    override_field_for_ccx dumps ccx7 "max_attempts" n overridden = (Return tt, s1)
    ∧ get loads from_string "max_attempts" d s1 = (Return n, s2).
Proof.
  apply (override_then_get_round_trip dumps loads from_string ccx7 "Demo"
           "max_attempts" n d base_location Integer overridden);
    try reflexivity.
  - apply unique_together_NoDup. compute_done.
  - by left.
  - apply Integer_read_back.
  - repeat constructor; by eexists.
Qed.

Example base_problem_two_overrides (n m : Z) :
  ∃ s1 s2,
    override_field_for_ccx dumps ccx7 "max_attempts" n overridden = (Return tt, s1)
    ∧ override_field_for_ccx dumps ccx7 "max_attempts" m s1 = (Return tt, s2)
    ∧ filter (has_key 7 base_location "max_attempts") (overrides s2)
      = [max_attempts_row base_location m]
    ∧ committed s2 = overrides s2.
Proof.
  apply (override_twice_leaves_one_row dumps ccx7 "max_attempts" n m
           base_location Integer overridden); try reflexivity.
  apply unique_together_NoDup. compute_done.
Qed.

(** For the problem as custom course 7 serves it, whatever the value and
    the default: the override is written under the qualified location and
    is not read back. *)
Example served_problem_not_read_back (n d : Z) :
  ∃ s1 s2,
    override_field_for_ccx dumps ccx7 "max_attempts" n served = (Return tt, s1)
    ∧ max_attempts_row ccx_location n ∈ overrides s1
    ∧ get loads from_string "max_attempts" d s1 = (Return d, s2).
Proof.
  apply (override_of_qualified_block_not_read_back dumps loads from_string
           ccx7 "Demo" "max_attempts" n d ccx_location Integer served);
    try reflexivity.
  - discriminate.
  - intros c loc f. simpl. lia.
  - by left.
  - constructor.
Qed.

(** For the problem that was read before, whatever the two values: the
    second override raises and the row holds the first value. *)
Example cached_problem_second_override (n m : Z) :
  ∃ s1 s2,
    override_field_for_ccx dumps ccx7 "max_attempts" n cached = (Return tt, s1)
    ∧ override_field_for_ccx dumps ccx7 "max_attempts" m s1 = (Raise KeyError, s2)
    ∧ overrides s2 = overrides s1
    ∧ committed s2 = overrides s1
    ∧ filter (has_key 7 base_location "max_attempts") (overrides s2)
      = [max_attempts_row base_location n].
Proof.
  apply (override_twice_with_cache_raises dumps ccx7 "max_attempts" n m
           base_location Integer {[ "max_attempts" := 5 ]} cached);
    try reflexivity.
  apply unique_together_NoDup. compute_done.
Qed.

(** For the problem as custom course 7 serves it, with the override on
    record under the base-form location, whatever the default: the clear
    deletes nothing and the read returns the value on record. *)
Example served_problem_not_cleared (d : Z) :
  ∃ s1,
    clear_override_for_ccx ccx7 "max_attempts" served_on_record
    = (Return tt, s1)
    ∧ overrides s1 = overrides served_on_record
    ∧ (get loads from_string "max_attempts" d s1).1 = Return 5.
Proof.
  apply (clear_of_qualified_block_keeps_override loads from_string ccx7 "Demo"
           "max_attempts" d ccx_location (max_attempts_row base_location 5) 5
           served_on_record); try reflexivity.
  - apply unique_together_NoDup. compute_done.
  - apply (proj1 (list_find_None _ _)). reflexivity.
  - by left.
  - repeat split.
  - repeat constructor; by eexists.
Qed.

(** ** The write path keeps the qualifier of the location *)

(** C3. The block is the problem as custom course 7 serves it, its
    location a [CCXBlockUsageLocator]: the row [override_field_for_ccx]
    persists has that location as it is, qualifier included, where the
    read path queries the location in base form. *)
Theorem override_row_keeps_qualified_location :
  served_set.1 = Return tt
  ∧ overrides served_set.2 = [max_attempts_row ccx_location 5]
  ∧ committed served_set.2 = [max_attempts_row ccx_location 5]
  ∧ Forall (λ r, ¬ base_form (o_location r)) (overrides served_set.2).
Proof.
  vm_compute. repeat split; try reflexivity.
  repeat constructor. discriminate.
Qed.

(** C1. The same block, which resolves to custom course 7: the override
    of [max_attempts] to 5 is written, and the [get] that follows
    queries the base-form location, finds no row and returns the default
    3. *)
Theorem override_of_served_block_not_read_back :
  resolved_course_key (block served) = Some (CCXLocator "Demo" 7)
  ∧ served_set.1 = Return tt
  ∧ served_read.1 = Return 3
  ∧ trace served_read.2
    = [Insert (max_attempts_row ccx_location 5);
       Update 0 (max_attempts_row ccx_location 5);
       QueryContext 7; QueryFilter 7 base_location].
Proof. vm_compute. repeat split; reflexivity. Qed.

(** ** The clear path keeps the qualifier of the location too *)

(** C6. The block is the problem as custom course 7 serves it, its
    location a [CCXBlockUsageLocator], and the override of
    [max_attempts] to 5 is on record under the base-form location, where
    the read path looks for it. [clear_override_for_ccx] looks the
    record up under [block.location] as it is, finds none and returns
    with the table as it was; the [get] that follows strips the
    qualifier, finds the row and returns 5, not the default 3. *)
Theorem clear_of_served_block_keeps_override :
  resolved_course_key (block served_on_record) = Some (CCXLocator "Demo" 7)
  ∧ served_on_record_clear.1 = Return tt
  ∧ trace served_on_record_clear.2 = [QueryGet 7 ccx_location "max_attempts"]
  ∧ overrides served_on_record_clear.2
    = [max_attempts_row base_location 5; weight_row base_location 2]
  ∧ served_on_record_read.1 = Return 5
  ∧ trace served_on_record_read.2
    = [QueryGet 7 ccx_location "max_attempts";
       QueryContext 7; QueryFilter 7 base_location].
Proof. vm_compute. repeat split; reflexivity. Qed.

(** ** The second override of a block that has a cache *)

(** C4. The block was read before and has its cache mapping. The first
    [override_field_for_ccx] drops the entry of the context; the second
    one, for the same key, finds no entry to drop: it raises [KeyError]
    and its update is rolled back, so the one row on record holds the
    first value, not the second. *)
Theorem second_override_raises_and_keeps_first_value :
  cached_set_5.1 = Return tt
  ∧ cached_set_8.1 = Raise KeyError
  ∧ overrides cached_set_8.2 = [max_attempts_row base_location 5]
  ∧ committed cached_set_8.2 = [max_attempts_row base_location 5].
Proof. vm_compute. repeat split; reflexivity. Qed.

(** ** Counterexamples to the claims as stated *)

(** C5, as stated, fails: the clear finds no record, the cached entry of
    the context is still there afterwards, and the next read answers
    from it without a query. *)
Lemma clear_of_absent_record_keeps_cached_entry :
  stale_cleared.1 = Return tt
  ∧ cached_entry 7 (block stale_cleared.2) ≠ None
  ∧ (get_override_for_ccx loads ccx7 "max_attempts" 3 stale_cleared.2).1
    = Return 5
  ∧ trace (get_override_for_ccx loads ccx7 "max_attempts" 3 stale_cleared.2).2
    = trace stale_cleared.2.
Proof. vm_compute. repeat split; try reflexivity. discriminate. Qed.

(** A clear that finds no record leaves the cached entry, and the read
    trusts it: after the clear, [get] with default 3 returns the cached
    5. *)
Lemma clear_then_get_returns_cached_value :
  stale_cleared.1 = Return tt
  ∧ (get loads from_string "max_attempts" 3 stale_cleared.2).1 = Return 5
  ∧ (get loads from_string "max_attempts" 3 stale_cleared.2).1 ≠ Return 3.
Proof. vm_compute. repeat split; try reflexivity. discriminate. Qed.

(** C10, as stated, fails: [override_field_for_ccx] raises [KeyError]
    and the table, the committed one included, is as it was: the value on
    record is still 5, no row holds 8. *)
Lemma override_KeyError_leaves_no_write :
  emptied_set.1 = Raise KeyError
  ∧ overrides emptied_set.2 = overrides emptied
  ∧ committed emptied_set.2 = committed emptied
  ∧ max_attempts_row base_location 8 ∉ overrides emptied_set.2.
Proof.
  vm_compute. repeat split; try reflexivity.
  intros Hin. apply list_elem_of_In in Hin. simpl in Hin.
  destruct Hin as [Hin|[]]. discriminate Hin.
Qed.

(** With a write of the caller pending, the rollback reaches further
    than the write of the call: where the insert goes through, the
    pending row is discarded with it. *)
Example override_KeyError_discards_pending_write :
  let set := override_field_for_ccx dumps ccx7 "max_attempts" 8 pending in
  set.1 = Raise KeyError
  ∧ overrides set.2 = []
  ∧ committed set.2 = []
  ∧ managed set.2 = true.
Proof. vm_compute. repeat split; reflexivity. Qed.

(** Where the insert meets the record, the handler's commit has made the
    pending row permanent before the update is rolled back. *)
Example override_KeyError_commits_pending_write :
  let set := override_field_for_ccx dumps ccx7 "max_attempts" 8
               pending_on_record in
  set.1 = Raise KeyError
  ∧ overrides set.2
    = [max_attempts_row base_location 5; weight_row base_location 2]
  ∧ committed set.2
    = [max_attempts_row base_location 5; weight_row base_location 2]
  ∧ managed set.2 = true.
Proof. vm_compute. repeat split; reflexivity. Qed.

(** ** The theorems at work *)

(** C2 at the problem in the base course. *)
Lemma get_without_context_witness :
  (∀ k, resolved_course_key (block outside_any_ccx) = Some k →
        is_CCXLocator k = false)
  ∧ ∃ evs,
      get loads from_string "max_attempts" 3 outside_any_ccx
      = (Return 3, with_trace (trace outside_any_ccx ++ evs) outside_any_ccx)
      ∧ Forall (λ e, is_store_query e = false) evs.
Proof.
  assert (∀ k, resolved_course_key (block outside_any_ccx) = Some k →
               is_CCXLocator k = false) as Hres.
  { intros k Hk. vm_compute in Hk. injection Hk as <-. reflexivity. }
  split; [exact Hres|].
  exact (get_without_context_returns_default loads from_string
           "max_attempts" 3 outside_any_ccx Hres).
Defined.

(** C8 at an object with no keys and no location. *)
Lemma get_unrecognised_identifier_witness :
  id_attr (block unrecognised) = IdOther
  ∧ location (block unrecognised) = None
  ∧ get loads from_string "max_attempts" 3 unrecognised
    = (Return 3, with_trace (trace unrecognised ++ [LogError]) unrecognised).
Proof.
  split; [reflexivity|]. split; [reflexivity|].
  exact (get_unrecognised_identifier_degrades loads from_string
           "max_attempts" 3 unrecognised eq_refl eq_refl).
Defined.

(** C9 at the key of custom course 9, at its text and at a block under
    it. *)
Lemma get_current_ccx_not_found_witness :
  Forall (λ c, ccx_id c ≠ 9) (contexts orphaned)
  ∧ get_current_ccx from_string (inl (CCXLocator "Demo" 9)) orphaned
    = (Raise DoesNotExist, with_trace (trace orphaned ++ [QueryContext 9]) orphaned)
  ∧ get_current_ccx from_string (inr "ccx-v1:Demo+ccx@9") orphaned
    = (Raise DoesNotExist, with_trace (trace orphaned ++ [QueryContext 9]) orphaned)
  ∧ get loads from_string "max_attempts" 3 orphaned
    = (Raise DoesNotExist, with_trace (trace orphaned ++ [QueryContext 9]) orphaned).
Proof.
  assert (Forall (λ c, ccx_id c ≠ 9) (contexts orphaned)) as Hnone.
  { repeat constructor. simpl. lia. }
  split; [exact Hnone|].
  destruct (get_current_ccx_not_found_propagates loads from_string
              "Demo" 9 orphaned Hnone) as (Hkey & Htext & Hget).
  split; [exact Hkey|]. split.
  - exact (Htext "ccx-v1:Demo+ccx@9" eq_refl).
  - exact (Hget "max_attempts" 3 eq_refl).
Defined.

(** C7 at a field of the problem that has no override. *)
Lemma clear_override_absent_witness :
  location (block overridden) = Some base_location
  ∧ Forall (λ r, ¬ has_key 7 base_location "due" r) (overrides overridden)
  ∧ clear_override_for_ccx ccx7 "due" overridden
    = (Return tt,
       with_trace (trace overridden ++ [QueryGet 7 base_location "due"])
         overridden).
Proof.
  assert (Forall (λ r, ¬ has_key 7 base_location "due" r) (overrides overridden))
    as Hnone.
  { apply (proj1 (list_find_None _ _)). reflexivity. }
  split; [reflexivity|]. split; [exact Hnone|].
  exact (clear_override_absent_is_noop ccx7 "due" base_location overridden
           eq_refl Hnone).
Defined.

(** C10 (amended) at the problem whose cache mapping is empty. *)
Lemma missing_cache_entry_witness :
  location (block emptied) = Some base_location
  ∧ _ccx_overrides (block emptied) = Some ∅
  ∧ (∅ : gmap Z (gmap string Z)) !! 7 = None
  ∧ unique_together (overrides emptied)
  ∧ (emptied_set.1 = Raise KeyError
     ∧ overrides emptied_set.2 = overrides emptied
     ∧ committed emptied_set.2 = overrides emptied
     ∧ managed emptied_set.2 = managed emptied)
  ∧ (emptied_clear.1 = Raise KeyError
     ∧ overrides emptied_clear.2 = []
     ∧ committed emptied_clear.2 = []).
Proof.
  assert (unique_together (overrides emptied)) as Huniq.
  { apply unique_together_NoDup. compute_done. }
  destruct (missing_cache_entry_raises_KeyError dumps ccx7 "max_attempts"
              base_location ∅ emptied eq_refl eq_refl eq_refl Huniq)
    as [Hset Hclear].
  destruct (Hset 8 Integer eq_refl)
    as (Hraised & _ & Hrows & Hcommitted & Hmanaged & _).
  simpl in Hclear. destruct Hclear as (Hraise & Hdeleted & Hkept & _).
  split; [reflexivity|]. split; [reflexivity|]. split; [reflexivity|].
  split; [exact Huniq|].
  split.
  - split; [exact Hraised|]. split; [exact Hrows|].
    split; [exact Hcommitted|exact Hmanaged].
  - split; [exact Hraise|]. split; [exact Hdeleted|exact Hkept].
Defined.

(** C5 (amended) at the problem that was read before. *)
Lemma store_writes_drop_cached_entry_witness :
  location (block cached) = Some base_location
  ∧ fields (block cached) !! "max_attempts" = Some Integer
  ∧ unique_together (overrides cached)
  ∧ droppable 7 (block cached)
  ∧ cached_set_5.1 = Return tt
  ∧ cached_entry 7 (block cached_set_5.2) = None
  ∧ adds_events (get_override_for_ccx loads ccx7 "weight" 1) cached_set_5.2
      [QueryFilter 7 base_location].
Proof.
  assert (unique_together (overrides cached)) as Huniq.
  { apply unique_together_NoDup. compute_done. }
  assert (droppable 7 (block cached)) as Hdrop.
  { right. eexists. reflexivity. }
  destruct (store_writes_drop_cached_entry dumps loads ccx7 "max_attempts" 5
              base_location Integer cached eq_refl eq_refl Huniq Hdrop)
    as [(Hset & Hgone & Hread) _].
  split; [reflexivity|]. split; [reflexivity|]. split; [exact Huniq|].
  split; [exact Hdrop|]. split; [exact Hset|]. split; [exact Hgone|].
  exact (Hread "weight" 1).
Defined.

(** Clearing, then reading, at the problem in base form with two
    overrides on record. *)
Lemma clear_then_get_witness :
  location (block overridden) = Some base_location
  ∧ base_form base_location
  ∧ resolved_course_key (block overridden) = Some (CCXLocator "Demo" 7)
  ∧ filter (λ c, ccx_id c = 7) (contexts overridden) = [ccx7]
  ∧ unique_together (overrides overridden)
  ∧ decode_all loads (fields (block overridden))
      (filter (at_location 7 base_location) (overrides overridden)) ∅
    = Some (<["weight" := 2]> (<["max_attempts" := 5]> ∅))
  ∧ (_ccx_overrides (block overridden) = None
     ∨ cached_entry 7 (block overridden)
       = Some (<["weight" := 2]> (<["max_attempts" := 5]> ∅)))
  ∧ ∃ s1 s2,
      clear_override_for_ccx ccx7 "max_attempts" overridden = (Return tt, s1)
      ∧ get loads from_string "max_attempts" 3 s1 = (Return 3, s2).
Proof.
  assert (unique_together (overrides overridden)) as Huniq.
  { apply unique_together_NoDup. compute_done. }
  split; [reflexivity|]. split; [reflexivity|]. split; [reflexivity|].
  split; [reflexivity|]. split; [exact Huniq|]. split; [reflexivity|].
  split; [left; reflexivity|].
  exact (clear_then_get_returns_default loads from_string ccx7 "Demo"
             "max_attempts" 3 base_location
             (<["weight" := 2]> (<["max_attempts" := 5]> ∅)) overridden
           eq_refl eq_refl eq_refl eq_refl Huniq eq_refl
           (or_introl eq_refl)).
Defined.

(** ** Further properties at work *)

(** The same block, where the rows on record are those of another custom
    course, of another block and of another field. *)
Definition crowded : State Z Z :=
  start (ccx_problem None)
    [override_row 8 base_location "max_attempts" (dumps 9);
     override_row 7 (BlockUsageLocator "Demo" "problem2") "max_attempts" (dumps 9);
     weight_row base_location 2].

(** The problem in base form, with a row on record for a field it does
    not have. *)
Definition undecodable : State Z Z :=
  start (base_problem None) [override_row 7 base_location "due" (dumps 1)].

(** The problem in base form, read before under custom courses 7 and 8. *)
Definition two_contexts : State Z Z :=
  start (base_problem (Some {[ 7 := {[ "max_attempts" := 5 ]};
                               8 := {[ "weight" := 4 ]} ]}))
    [max_attempts_row base_location 5].

Lemma overridden_unique : unique_together (overrides overridden).
Proof. apply unique_together_NoDup. compute_done. Qed.

Lemma overridden_decodes :
  Forall (λ r, is_Some (decode_value loads (fields (block overridden)) r))
    (filter (at_location 7 base_location) (overrides overridden)).
Proof. repeat constructor; by eexists. Qed.

Lemma one_row_unique (r : CcxFieldOverride) : unique_together [r].
Proof. apply unique_together_NoDup. repeat constructor. by intros ?%elem_of_nil. Qed.

(** X1 at the problem with two overrides on record, overridden to 9. *)
Lemma override_then_get_override_witness :
  location (block overridden) = Some base_location
  ∧ base_form base_location
  ∧ fields (block overridden) !! "max_attempts" = Some Integer
  ∧ unique_together (overrides overridden)
  ∧ droppable 7 (block overridden)
  ∧ read_back dumps loads Integer 9 = Some 9
  ∧ Forall (λ r, is_Some (decode_value loads (fields (block overridden)) r))
      (filter (at_location 7 base_location) (overrides overridden))
  ∧ ∃ s1 s2,
      override_field_for_ccx dumps ccx7 "max_attempts" 9 overridden
      = (Return tt, s1)
      ∧ get_override_for_ccx loads ccx7 "max_attempts" 3 s1 = (Return 9, s2).
Proof.
  split; [reflexivity|]. split; [reflexivity|]. split; [reflexivity|].
  split; [exact overridden_unique|]. split; [left; reflexivity|].
  split; [reflexivity|]. split; [exact overridden_decodes|].
  exact (override_then_get_override_returns_value dumps loads ccx7
           "max_attempts" 9 3 base_location Integer overridden
           eq_refl eq_refl eq_refl overridden_unique (or_introl eq_refl)
           eq_refl overridden_decodes).
Defined.

(** X2 at the problem that was read before: the row on record is updated. *)
Lemma override_upserts_witness :
  location (block cached) = Some base_location
  ∧ fields (block cached) !! "max_attempts" = Some Integer
  ∧ unique_together (overrides cached)
  ∧ droppable 7 (block cached)
  ∧ ∃ s',
      override_field_for_ccx dumps ccx7 "max_attempts" 8 cached = (Return tt, s')
      ∧ filter (has_key 7 base_location "max_attempts") (overrides s')
        = [max_attempts_row base_location 8]
      ∧ (∀ c' loc' f', (c', loc', f') ≠ (7, base_location, "max_attempts") →
           filter (has_key c' loc' f') (overrides s')
           = filter (has_key c' loc' f') (overrides cached))
      ∧ unique_together (overrides s')
      ∧ committed s' = overrides s'.
Proof.
  assert (droppable 7 (block cached)) as Hdrop.
  { right. eexists. reflexivity. }
  split; [reflexivity|]. split; [reflexivity|].
  split; [exact (one_row_unique _)|]. split; [exact Hdrop|].
  exact (override_upserts_one_row dumps ccx7 "max_attempts" 8 base_location
           Integer cached eq_refl eq_refl (one_row_unique _) Hdrop).
Defined.

(** X3 at the problem with two overrides on record: the weight is cleared. *)
Lemma clear_deletes_witness :
  location (block overridden) = Some base_location
  ∧ unique_together (overrides overridden)
  ∧ droppable 7 (block overridden)
  ∧ weight_row base_location 2 ∈ overrides overridden
  ∧ has_key 7 base_location "weight" (weight_row base_location 2)
  ∧ ∃ s',
      clear_override_for_ccx ccx7 "weight" overridden = (Return tt, s')
      ∧ Forall (λ x, ¬ has_key 7 base_location "weight" x) (overrides s')
      ∧ (∀ c' loc' f', (c', loc', f') ≠ (7, base_location, "weight") →
           filter (has_key c' loc' f') (overrides s')
           = filter (has_key c' loc' f') (overrides overridden))
      ∧ S (length (overrides s')) = length (overrides overridden)
      ∧ unique_together (overrides s').
Proof.
  assert (weight_row base_location 2 ∈ overrides overridden) as Hin.
  { right. left. }
  assert (has_key 7 base_location "weight" (weight_row base_location 2)) as Hkey.
  { repeat split. }
  split; [reflexivity|]. split; [exact overridden_unique|].
  split; [left; reflexivity|]. split; [exact Hin|]. split; [exact Hkey|].
  exact (clear_deletes_only_the_row ccx7 "weight" base_location
           (weight_row base_location 2) overridden
           eq_refl overridden_unique (or_introl eq_refl) Hin Hkey).
Defined.

(** X4 at the problem with two overrides on record: [max_attempts] is
    read, then [weight]. *)
Lemma second_read_witness :
  location (block overridden) = Some base_location
  ∧ cached_entry 7 (block overridden) = None
  ∧ decode_all loads (fields (block overridden))
      (filter (at_location 7 (query_location base_location))
         (overrides overridden)) ∅
    = Some (<["weight" := 2]> (<["max_attempts" := 5]> ∅))
  ∧ ∃ s1,
      get_override_for_ccx loads ccx7 "max_attempts" 3 overridden
      = (Return 5, s1)
      ∧ trace s1 = trace overridden ++ [QueryFilter 7 base_location]
      ∧ cached_entry 7 (block s1)
        = Some (<["weight" := 2]> (<["max_attempts" := 5]> ∅))
      ∧ get_override_for_ccx loads ccx7 "weight" 1 s1 = (Return 2, s1).
Proof.
  split; [reflexivity|]. split; [reflexivity|]. split; [reflexivity|].
  exact (second_read_answers_from_cache loads ccx7 "max_attempts" "weight"
           3 1 base_location (<["weight" := 2]> (<["max_attempts" := 5]> ∅))
           overridden eq_refl eq_refl eq_refl).
Defined.

Lemma served_on_record_unique : unique_together (overrides served_on_record).
Proof. apply unique_together_NoDup. compute_done. Qed.

Lemma served_on_record_decodes :
  Forall (λ r, is_Some (decode_value loads (fields (block served_on_record)) r))
    (filter (at_location 7 (to_block_locator ccx_location))
       (overrides served_on_record)).
Proof. repeat constructor; by eexists. Qed.

(** X6 at the problem as custom course 7 serves it, its override on
    record under the base-form location. *)
Lemma read_finds_row_witness :
  location (block served_on_record) = Some ccx_location
  ∧ cached_entry 7 (block served_on_record) = None
  ∧ unique_together (overrides served_on_record)
  ∧ max_attempts_row base_location 5 ∈ overrides served_on_record
  ∧ has_key 7 (to_block_locator ccx_location) "max_attempts"
      (max_attempts_row base_location 5)
  ∧ decode_value loads (fields (block served_on_record))
      (max_attempts_row base_location 5) = Some 5
  ∧ Forall (λ r, is_Some (decode_value loads (fields (block served_on_record)) r))
      (filter (at_location 7 (to_block_locator ccx_location))
         (overrides served_on_record))
  ∧ (get_override_for_ccx loads ccx7 "max_attempts" 3 served_on_record).1
    = Return 5
  ∧ ∃ entry,
      cached_entry 7
        (block (get_override_for_ccx loads ccx7 "max_attempts" 3
                  served_on_record).2)
      = Some entry
      ∧ entry !! "max_attempts" = Some 5.
Proof.
  assert (max_attempts_row base_location 5 ∈ overrides served_on_record) as Hin.
  { left. }
  assert (has_key 7 (to_block_locator ccx_location) "max_attempts"
            (max_attempts_row base_location 5)) as Hkey.
  { repeat split. }
  split; [reflexivity|]. split; [reflexivity|].
  split; [exact served_on_record_unique|]. split; [exact Hin|].
  split; [exact Hkey|]. split; [reflexivity|].
  split; [exact served_on_record_decodes|].
  exact (read_finds_row_under_base_location loads ccx7 "max_attempts" 3
           ccx_location (max_attempts_row base_location 5) 5 served_on_record
           eq_refl eq_refl served_on_record_unique Hin Hkey eq_refl
           served_on_record_decodes).
Defined.

Lemma crowded_no_row :
  Forall (λ r, ¬ has_key 7 (to_block_locator ccx_location) "max_attempts" r)
    (overrides crowded).
Proof. apply (proj1 (list_find_None _ _)). reflexivity. Qed.

Lemma crowded_decodes :
  Forall (λ r, is_Some (decode_value loads (fields (block crowded)) r))
    (filter (at_location 7 (to_block_locator ccx_location)) (overrides crowded)).
Proof. repeat constructor; by eexists. Qed.

(** X7 at the problem as custom course 7 serves it, where custom course 8
    and another block have their [max_attempts] overridden. *)
Lemma read_ignores_other_keys_witness :
  location (block crowded) = Some ccx_location
  ∧ cached_entry 7 (block crowded) = None
  ∧ Forall (λ r, ¬ has_key 7 (to_block_locator ccx_location) "max_attempts" r)
      (overrides crowded)
  ∧ Forall (λ r, is_Some (decode_value loads (fields (block crowded)) r))
      (filter (at_location 7 (to_block_locator ccx_location)) (overrides crowded))
  ∧ (get_override_for_ccx loads ccx7 "max_attempts" 3 crowded).1 = Return 3.
Proof.
  split; [reflexivity|]. split; [reflexivity|]. split; [exact crowded_no_row|].
  split; [exact crowded_decodes|].
  exact (read_ignores_rows_of_other_keys loads ccx7 "max_attempts" 3
           ccx_location crowded eq_refl eq_refl crowded_no_row crowded_decodes).
Defined.

(** X8 at the problem, for a field it does not have. *)
Lemma override_unknown_field_witness :
  fields (block overridden) !! "due" = None
  ∧ committed overridden = overrides overridden
  ∧ override_field_for_ccx dumps ccx7 "due" 1 overridden
    = (Raise KeyError, overridden).
Proof.
  split; [reflexivity|]. split; [reflexivity|].
  exact (override_unknown_field_raises_KeyError dumps ccx7 "due" 1 overridden
           eq_refl eq_refl).
Defined.

(** X9 at the problem with a row for a field it does not have. *)
Lemma failed_read_witness :
  location (block undecodable) = Some base_location
  ∧ cached_entry 7 (block undecodable) = None
  ∧ decode_all loads (fields (block undecodable))
      (filter (at_location 7 (query_location base_location))
         (overrides undecodable)) ∅
    = None
  ∧ ∃ e s',
      get_override_for_ccx loads ccx7 "max_attempts" 3 undecodable
      = (Raise e, s')
      ∧ (∃ before r after,
           filter (at_location 7 (query_location base_location))
             (overrides undecodable)
           = before ++ r :: after
           ∧ Forall (λ x, is_Some (decode_value loads
                                     (fields (block undecodable)) x)) before
           ∧ raised_at loads (fields (block undecodable)) r e)
      ∧ trace s' = trace undecodable ++ [QueryFilter 7 base_location]
      ∧ _ccx_overrides (block s') = Some (cache_of (block undecodable))
      ∧ cached_entry 7 (block s') = None.
Proof.
  split; [reflexivity|]. split; [reflexivity|]. split; [reflexivity|].
  exact (failed_read_leaves_cache_without_entry loads ccx7 "max_attempts" 3
           base_location undecodable eq_refl eq_refl eq_refl).
Defined.

Lemma fresh_unique : unique_together (overrides fresh).
Proof. intros c loc f. simpl. lia. Qed.

(** X10 at the problem that has no override. *)
Lemma override_then_clear_witness :
  location (block fresh) = Some base_location
  ∧ fields (block fresh) !! "max_attempts" = Some Integer
  ∧ unique_together (overrides fresh)
  ∧ _ccx_overrides (block fresh) = None
  ∧ Forall (λ r, ¬ has_key 7 base_location "max_attempts" r) (overrides fresh)
  ∧ managed fresh = false
  ∧ ∃ s1 s2,
      override_field_for_ccx dumps ccx7 "max_attempts" 5 fresh = (Return tt, s1)
      ∧ clear_override_for_ccx ccx7 "max_attempts" s1 = (Return tt, s2)
      ∧ overrides s2 = overrides fresh
      ∧ committed s2 = overrides fresh.
Proof.
  assert (Forall (λ r, ¬ has_key 7 base_location "max_attempts" r)
            (overrides fresh)) as Hnone.
  { constructor. }
  split; [reflexivity|]. split; [reflexivity|]. split; [exact fresh_unique|].
  split; [reflexivity|]. split; [exact Hnone|]. split; [reflexivity|].
  exact (override_then_clear_restores_table dumps ccx7 "max_attempts" 5
           base_location Integer fresh eq_refl eq_refl fresh_unique eq_refl
           Hnone eq_refl).
Defined.

(** X11 at the problem read under custom courses 7 and 8: what is done
    for 7 leaves the entry of 8. *)
Lemma other_contexts_witness :
  location (block two_contexts) = Some base_location
  ∧ fields (block two_contexts) !! "max_attempts" = Some Integer
  ∧ unique_together (overrides two_contexts)
  ∧ droppable 7 (block two_contexts)
  ∧ decode_all loads (fields (block two_contexts))
      (filter (at_location 7 (query_location base_location))
         (overrides two_contexts)) ∅
    = Some (<["max_attempts" := 5]> ∅)
  ∧ 8 ≠ ccx_id ccx7
  ∧ cached_entry 8
      (block (override_field_for_ccx dumps ccx7 "max_attempts" 9 two_contexts).2)
    = cached_entry 8 (block two_contexts)
  ∧ cached_entry 8
      (block (clear_override_for_ccx ccx7 "max_attempts" two_contexts).2)
    = cached_entry 8 (block two_contexts)
  ∧ cached_entry 8
      (block (get_override_for_ccx loads ccx7 "max_attempts" 3 two_contexts).2)
    = cached_entry 8 (block two_contexts).
Proof.
  assert (droppable 7 (block two_contexts)) as Hdrop.
  { right. eexists. reflexivity. }
  assert (8 ≠ ccx_id ccx7) as Hne.
  { simpl. lia. }
  split; [reflexivity|]. split; [reflexivity|].
  split; [exact (one_row_unique _)|]. split; [exact Hdrop|].
  split; [reflexivity|]. split; [exact Hne|].
  exact (other_contexts_stay_cached dumps loads ccx7 "max_attempts" 9 3
           base_location Integer (<["max_attempts" := 5]> ∅) 8 two_contexts
           eq_refl eq_refl (one_row_unique _) Hdrop eq_refl Hne).
Defined.

(** X12 at the text of the key of custom course 7. *)
Lemma get_current_ccx_witness :
  get_current_ccx from_string (inr "ccx-v1:Demo+ccx@7") fresh
  = (Return (Some ccx7), with_trace (trace fresh ++ [QueryContext 7]) fresh)
  ∧ (∃ course,
       inr "ccx-v1:Demo+ccx@7" = inl (CCXLocator course (ccx_id ccx7))
       ∨ ∃ text, @inr CourseKey string "ccx-v1:Demo+ccx@7" = inr text
                 ∧ from_string text = Some (CCXLocator course (ccx_id ccx7)))
  ∧ ccx7 ∈ contexts fresh
  ∧ with_trace (trace fresh ++ [QueryContext 7]) fresh
    = with_trace (trace fresh ++ [QueryContext (ccx_id ccx7)]) fresh.
Proof.
  split; [reflexivity|].
  exact (get_current_ccx_returns_the_keyed_course from_string
           (inr "ccx-v1:Demo+ccx@7") ccx7 fresh
           (with_trace (trace fresh ++ [QueryContext 7]) fresh) eq_refl).
Defined.

(** X13 at the problem as custom course 7 serves it, its override on
    record. *)
Lemma get_returns_override_witness :
  resolved_course_key (block served_on_record) = Some (CCXLocator "Demo" 7)
  ∧ filter (λ c, ccx_id c = 7) (contexts served_on_record) = [ccx7]
  ∧ location (block served_on_record) = Some ccx_location
  ∧ cached_entry 7 (block served_on_record) = None
  ∧ unique_together (overrides served_on_record)
  ∧ max_attempts_row base_location 5 ∈ overrides served_on_record
  ∧ has_key 7 (to_block_locator ccx_location) "max_attempts"
      (max_attempts_row base_location 5)
  ∧ decode_value loads (fields (block served_on_record))
      (max_attempts_row base_location 5) = Some 5
  ∧ Forall (λ r, is_Some (decode_value loads (fields (block served_on_record)) r))
      (filter (at_location 7 (to_block_locator ccx_location))
         (overrides served_on_record))
  ∧ (get loads from_string "max_attempts" 3 served_on_record).1 = Return 5
  ∧ trace (get loads from_string "max_attempts" 3 served_on_record).2
    = trace served_on_record ++ [QueryContext 7; QueryFilter 7 base_location].
Proof.
  assert (max_attempts_row base_location 5 ∈ overrides served_on_record) as Hin.
  { left. }
  assert (has_key 7 (to_block_locator ccx_location) "max_attempts"
            (max_attempts_row base_location 5)) as Hkey.
  { repeat split. }
  split; [reflexivity|]. split; [reflexivity|]. split; [reflexivity|].
  split; [reflexivity|]. split; [exact served_on_record_unique|].
  split; [exact Hin|]. split; [exact Hkey|]. split; [reflexivity|].
  split; [exact served_on_record_decodes|].
  exact (get_returns_override_on_record loads from_string ccx7 "Demo"
           "max_attempts" 3 ccx_location (max_attempts_row base_location 5) 5
           served_on_record eq_refl eq_refl eq_refl eq_refl
           served_on_record_unique Hin Hkey eq_refl served_on_record_decodes).
Defined.
